(** * XliffFileType: the aggregated-resource file type of the xliff plugin

    A shallow embedding of [XliffFileType.js].  The file type keeps one lazily
    created [XliffFile] object and three translation sets; [write] merges the
    new and pseudo sets into the file, persists it and, when the file's set is
    still dirty, runs [xcodebuild] to import the result.

    The classes the file type talks to ([TranslationSet], [XliffFile],
    [FileType], the resource class) and the platform services
    ([path.normalize], [child_process.spawnSync], the log4js logger) live
    outside this file.  They are taken as an interface, [Collaborators], and
    every call the file type makes on them is recorded in a trace. *)

From Stdlib Require Import Ascii.
From stdpp Require Import gmap strings list pretty.

Local Open Scope string_scope.
Local Open Scope list_scope.

(** ** Plain data read by the file type *)

(** [this.project]: the two properties the file type reads,
    [project.options.id] and [project.sourceLocale]. *)
Record Project := {
  options_id : string;
  sourceLocale : string;
}.

(** The object literal passed to [new XliffFile(...)] in [newFile]. *)
Record XliffFileOptions := {
  opt_project : Project;
  opt_pathName : string;
  opt_sourceLocale : string;
}.

(** What [spawnSync] returns: [status] is the exit code, or [null] when the
    process did not exit by itself; [stdout] and [stderr] are buffers, or
    absent when the process could not be started. *)
Record ProcStatus := {
  status : option Z;
  stdout : option string;
  stderr : option string;
}.

(** log4js levels used in the file. *)
Inductive level := TRACE | DEBUG | INFO | WARN.

#[global] Instance level_eq_dec : EqDecision level.
Proof. solve_decision. Defined.

(** References to [XliffFile] objects. *)
Abbreviation loc := nat.

(** Calls that leave the file type, in program order. *)
Inductive event (R : Type) :=
| Log (lvl : level) (msg : string)
| NewXliffFile (l : loc) (opts : XliffFileOptions)
| AddResource (l : loc) (res : R)
| FileWrite (l : loc)
| SpawnSync (cmd : string) (args : list string).

Arguments Log {R} lvl msg.
Arguments NewXliffFile {R} l opts.
Arguments AddResource {R} l res.
Arguments FileWrite {R} l.
Arguments SpawnSync {R} cmd args.

(** ** The collaborators *)

Class Collaborators := {
  (** a resource; [res.reskey] as it prints in a log line *)
  Resource : Type;
  reskey : Resource -> string;
  (** TranslationSet.js *)
  TranslationSet : Type;
  ts_getAll : TranslationSet -> list Resource;
  ts_addSet : TranslationSet -> TranslationSet -> TranslationSet;
  ts_isDirty : TranslationSet -> bool;
  (** the set a fresh [FileType] starts with, for a source locale *)
  ts_new : string -> TranslationSet;
  (** XliffFile.js; [xf_write] gives the object after the call and the
      exception it threw, if any *)
  XliffFile : Type;
  Exn : Type;
  xf_new : XliffFileOptions -> XliffFile;
  xf_pathName : XliffFile -> string;
  xf_addResource : XliffFile -> Resource -> XliffFile;
  xf_write : XliffFile -> XliffFile * option Exn;
  xf_getTranslationSet : XliffFile -> TranslationSet;
  (** [path.normalize] *)
  path_normalize : string -> string;
  (** [child_process.spawnSync]: the outcome may depend on everything that
      happened before the call *)
  spawnSync : list (event Resource) -> string -> list string -> ProcStatus;
}.

(** ** Node's [path.normalize], POSIX flavour

    The platform function behind [path_normalize] on a POSIX host, by
    segments: empty and [.] segments go away, [..] removes the segment before
    it (or stays, in a relative path with nothing left to remove), a trailing
    slash is kept, the empty path is [.]. *)
Module Path.

Definition slash : ascii := "/"%char.

(** [path.split("/")] *)
Fixpoint split_acc (cur : string) (s : string) : list string :=
  match s with
  | EmptyString => [String.rev cur]
  | String c s' =>
      if Ascii.eqb c slash then String.rev cur :: split_acc "" s'
      else split_acc (String c cur) s'
  end.

Definition split (s : string) : list string := split_acc "" s.

(** [normalizeString]; [res] holds the segments kept so far, last first. *)
Fixpoint normalizeSegments (allowAboveRoot : bool) (res : list string)
    (segs : list string) : list string :=
  match segs with
  | [] => rev res
  | seg :: segs' =>
      if String.eqb seg "" || String.eqb seg "." then
        normalizeSegments allowAboveRoot res segs'
      else if String.eqb seg ".." then
        match res with
        | last :: res' =>
            if String.eqb last ".." then
              normalizeSegments allowAboveRoot
                (if allowAboveRoot then ".." :: res else res) segs'
            else normalizeSegments allowAboveRoot res' segs'
        | [] =>
            normalizeSegments allowAboveRoot
              (if allowAboveRoot then [".."] else []) segs'
        end
      else normalizeSegments allowAboveRoot (seg :: res) segs'
  end.

Fixpoint join (segs : list string) : string :=
  match segs with
  | [] => ""
  | [seg] => seg
  | seg :: segs' => seg +:+ "/" +:+ join segs'
  end.

Definition startsWithSlash (s : string) : bool :=
  match s with
  | String c _ => Ascii.eqb c slash
  | EmptyString => false
  end.

Definition endsWithSlash (s : string) : bool :=
  startsWithSlash (String.rev s).

Definition normalize (path : string) : string :=
  if String.eqb path "" then "."
  else
    let isAbsolute := startsWithSlash path in
    let trailingSeparator := endsWithSlash path in
    let p := join (normalizeSegments (negb isAbsolute) [] (split path)) in
    if String.eqb p "" then
      if isAbsolute then "/" else if trailingSeparator then "./" else "."
    else
      let p := if trailingSeparator then p +:+ "/" else p in
      if isAbsolute then "/" +:+ p else p.

End Path.

(** The same collaborators on a POSIX host: [path.normalize] is
    [Path.normalize]. *)
Definition on_posix (C : Collaborators) : Collaborators :=
  {| Resource := @Resource C;
     reskey := @reskey C;
     TranslationSet := @TranslationSet C;
     ts_getAll := @ts_getAll C;
     ts_addSet := @ts_addSet C;
     ts_isDirty := @ts_isDirty C;
     ts_new := @ts_new C;
     XliffFile := @XliffFile C;
     Exn := @Exn C;
     xf_new := @xf_new C;
     xf_pathName := @xf_pathName C;
     xf_addResource := @xf_addResource C;
     xf_write := @xf_write C;
     xf_getTranslationSet := @xf_getTranslationSet C;
     path_normalize := Path.normalize;
     spawnSync := @spawnSync C |}.

Section XliffFileType.

Context `{C : Collaborators}.

(** ** The object and the state around it *)

(** The properties of an [XliffFileType] instance.  [file] is [undefined]
    until [newFile] assigns it; [datatype] is whatever the parent left. *)
Record XliffFileType := {
  type : string;
  project : Project;
  files : list string;
  extensions : list string;
  datatype : option string;
  extracted : TranslationSet;
  newres : TranslationSet;
  pseudo : TranslationSet;
  file : option loc;
}.

(** The instance, the [XliffFile] objects alive, the global [ret] that
    [handles] assigns without declaring it, and the trace, oldest call
    first. *)
Record State := {
  this : XliffFileType;
  heap : gmap loc XliffFile;
  global_ret : option bool;
  trace : list (event Resource);
}.

(** What a thrown value can be: an exception of [XliffFile.write], or the
    engine's [TypeError] on a property access through a dead reference. *)
Inductive thrown :=
| FromFile (e : Exn)
| TypeError.

Inductive completion (A : Type) :=
| Normal (a : A)
| Throw (e : thrown).

Arguments Normal {A} a.
Arguments Throw {A} e.

(** A method body: it runs on a state and completes normally or abruptly. *)
Definition M (A : Type) : Type := State -> completion A * State.

Definition ret {A} (a : A) : M A := fun s => (Normal a, s).

Definition bind {A B} (k : A -> M B) (m : M A) : M B :=
  fun s =>
    match m s with
    | (Normal a, s') => k a s'
    | (Throw e, s') => (Throw e, s')
    end.

#[local] Instance M_ret : MRet M := @ret.
#[local] Instance M_bind : MBind M := @bind.

Definition throw {A} (e : thrown) : M A := fun s => (Throw e, s).

Definition gets {A} (f : State -> A) : M A := fun s => (Normal (f s), s).

Definition modify (f : State -> State) : M unit := fun s => (Normal tt, f s).

(** Field updates of the two records. *)
Definition set_this (f : XliffFileType -> XliffFileType) (s : State) : State :=
  {| this := f (this s); heap := heap s; global_ret := global_ret s;
     trace := trace s |}.

Definition set_heap (f : gmap loc XliffFile -> gmap loc XliffFile)
    (s : State) : State :=
  {| this := this s; heap := f (heap s); global_ret := global_ret s;
     trace := trace s |}.

Definition set_global_ret (b : bool) (s : State) : State :=
  {| this := this s; heap := heap s; global_ret := Some b; trace := trace s |}.

Definition record (e : event Resource) (s : State) : State :=
  {| this := this s; heap := heap s; global_ret := global_ret s;
     trace := trace s ++ [e] |}.

Definition set_file (o : option loc) (t : XliffFileType) : XliffFileType :=
  {| type := type t; project := project t; files := files t;
     extensions := extensions t; datatype := datatype t;
     extracted := extracted t; newres := newres t; pseudo := pseudo t;
     file := o |}.

Definition set_extracted (e : TranslationSet) (t : XliffFileType)
    : XliffFileType :=
  {| type := type t; project := project t; files := files t;
     extensions := extensions t; datatype := datatype t;
     extracted := e; newres := newres t; pseudo := pseudo t;
     file := file t |}.

(** ** Calls on the collaborators *)

(** [logger.trace], [logger.debug], [logger.info], [logger.warn] *)
Definition logger (lvl : level) (msg : string) : M unit :=
  modify (record (Log lvl msg)).

(** Following a reference to the object it points to. *)
Definition deref (l : loc) : M XliffFile :=
  fun s =>
    match heap s !! l with
    | Some f => (Normal f, s)
    | None => (Throw TypeError, s)
    end.

(** [new XliffFile(opts)]: a fresh object. *)
Definition new_XliffFile (opts : XliffFileOptions) : M loc :=
  fun s =>
    let l := fresh (dom (heap s)) in
    (Normal l, record (NewXliffFile l opts) (set_heap <[l := xf_new opts]> s)).

(** [file.addResource(res)] on the object at [l] *)
Definition file_addResource (l : loc) (res : Resource) : M unit :=
  f ← deref l;
  modify (record (AddResource l res)) ;;
  modify (set_heap <[l := xf_addResource f res]>).

(** [file.pathName] *)
Definition file_pathName (l : loc) : M string :=
  f ← deref l; mret (xf_pathName f).

(** [file.write()]: the object changes as the collaborator says, and what it
    throws goes on to the caller. *)
Definition file_write (l : loc) : M unit :=
  f ← deref l;
  modify (record (FileWrite l)) ;;
  modify (set_heap <[l := (xf_write f).1]>) ;;
  match (xf_write f).2 with
  | Some e => throw (FromFile e)
  | None => mret tt
  end.

(** [file.getTranslationSet().isDirty()] *)
Definition file_isDirty (l : loc) : M bool :=
  f ← deref l; mret (ts_isDirty (xf_getTranslationSet f)).

(** [spawnSync(cmd, args)] *)
Definition spawn (cmd : string) (args : list string) : M ProcStatus :=
  fun s => (Normal (spawnSync (trace s) cmd args), record (SpawnSync cmd args) s).

(** ** The constructor *)

(** Modelled from the spec: the parent constructor [FileType] is not in this
    file; it stores the project and creates the extracted, new and pseudo
    sets once, for the project's source locale, and leaves [file] and
    [datatype] unset.  The rest is the body of [XliffFileType]. *)
Definition construct (proj : Project) : XliffFileType :=
  {| type := "xml";
     project := proj;
     files := [];
     extensions := [".xliff"];
     datatype := None;
     extracted := ts_new (sourceLocale proj);
     newres := ts_new (sourceLocale proj);
     pseudo := ts_new (sourceLocale proj);
     file := None |}.

(** ** The methods *)

Definition handles (pathName : string) : M bool :=
  logger DEBUG ("XliffFileType handles " +:+ pathName +:+ "?") ;;
  let ret := String.eqb (path_normalize pathName) "en-US.xliff" in
  modify (set_global_ret ret) ;;
  logger DEBUG (if ret then "Yes" else "No") ;;
  mret ret.

Definition name : M string := mret "Xliff File Type".

(** One of the two [for] loops of [write]: [resources[i]] for [i] from 0 up
    to [resources.length], each added to the file and then logged.  The file
    object keeps a set of its own, so the array being walked does not change
    under the loop. *)
Fixpoint addResources (l : loc) (resources : list Resource) : M unit :=
  match resources with
  | [] => mret tt
  | res :: rest =>
      file_addResource l res ;;
      pathName ← file_pathName l;
      logger TRACE ("Added " +:+ reskey res +:+ " to " +:+ pathName) ;;
      addResources l rest
  end.

Definition xcodebuild_args : list string :=
  ["-importLocalizations"; "-localizationPath"; "./en.xliff"; "-project";
   "feelgood.xcodeproj"].

Definition log_buffer (buf : option string) : M unit :=
  match buf with
  | Some text => logger INFO text
  | None => mret tt
  end.

(** The body of the last [if] of [write]: run [xcodebuild], pass on what it
    printed, warn when it failed. *)
Definition importLocalizations : M unit :=
  id ← gets (fun s => options_id (project (this s)));
  logger INFO ("executing xcodebuild on the " +:+ id +:+
    " project to import those translations. This may take a while...") ;;
  let args := xcodebuild_args in
  procStatus ← spawn "xcodebuild" args;
  log_buffer (stdout procStatus) ;;
  (if decide (status procStatus = Some 0%Z) then mret tt
   else logger WARN "Execution failed: ") ;;
  log_buffer (stderr procStatus) ;;
  logger INFO "xcodebuild done".

Definition write : M unit :=
  logger TRACE "Writing xliff files" ;;
  f ← gets (fun s => file (this s));
  match f with
  | None => mret tt
  | Some l =>
      resources ← gets (fun s => ts_getAll (newres (this s)));
      logger TRACE ("There are " +:+ pretty (length resources)
                    +:+ " resources to add.") ;;
      addResources l resources ;;
      resources ← gets (fun s => ts_getAll (pseudo (this s)));
      addResources l resources ;;
      logger INFO "Now writing out the ios xliff files" ;;
      file_write l ;;
      dirty ← file_isDirty l;
      if dirty : bool then importLocalizations else mret tt
  end.

Definition newFile (pathName : string) : M (option loc) :=
  f ← gets (fun s => file (this s));
  match f with
  | None =>
      proj ← gets (fun s => project (this s));
      l ← new_XliffFile {| opt_project := proj;
                           opt_pathName := pathName;
                           opt_sourceLocale := sourceLocale proj |};
      modify (set_this (set_file (Some l)))
  | Some _ => mret tt
  end ;;
  gets (fun s => file (this s)).

Definition getResourceFile : M (option loc) :=
  gets (fun s => file (this s)).

Definition getDataType : M (option string) :=
  gets (fun s => datatype (this s)).

(** [{}]: an object without properties *)
Definition getResourceTypes : M (list (string * string)) := mret [].

Definition getExtensions : M (list string) :=
  gets (fun s => extensions (this s)).

Definition getExtracted : M TranslationSet :=
  gets (fun s => extracted (this s)).

Definition addSet (set : TranslationSet) : M unit :=
  modify (set_this (fun t => set_extracted (ts_addSet (extracted t) set) t)).

Definition getNew : M TranslationSet :=
  gets (fun s => newres (this s)).

Definition getPseudo : M TranslationSet :=
  gets (fun s => pseudo (this s)).

(** ** The host's calls

    The methods as the host framework can invoke them, and a run of such
    calls on a state.  A run keeps the state a call leaves, however the call
    completed. *)
Inductive call :=
| DoHandles (pathName : string)
| DoName
| DoWrite
| DoNewFile (pathName : string)
| DoGetResourceFile
| DoGetDataType
| DoGetResourceTypes
| DoGetExtensions
| DoGetExtracted
| DoAddSet (set : TranslationSet)
| DoGetNew
| DoGetPseudo.

Definition exec (c : call) (s : State) : State :=
  match c with
  | DoHandles pathName => (handles pathName s).2
  | DoName => (name s).2
  | DoWrite => (write s).2
  | DoNewFile pathName => (newFile pathName s).2
  | DoGetResourceFile => (getResourceFile s).2
  | DoGetDataType => (getDataType s).2
  | DoGetResourceTypes => (getResourceTypes s).2
  | DoGetExtensions => (getExtensions s).2
  | DoGetExtracted => (getExtracted s).2
  | DoAddSet set => (addSet set s).2
  | DoGetNew => (getNew s).2
  | DoGetPseudo => (getPseudo s).2
  end.

Definition run (cs : list call) (s : State) : State :=
  foldl (fun s c => exec c s) s cs.

Definition is_newFile (c : call) : bool :=
  match c with DoNewFile _ => true | _ => false end.

(** The state right after [new XliffFileType(project)], in a world that has
    [h] as its [XliffFile] objects and [tr] as its past. *)
Definition initial (proj : Project) (h : gmap loc XliffFile)
    (tr : list (event Resource)) : State :=
  {| this := construct proj; heap := h; global_ret := None; trace := tr |}.

(** ** Reading a trace *)

(** What a call added to the trace: the events of [s'] that [s] does not
    have yet. *)
Definition since (s s' : State) : list (event Resource) :=
  drop (length (trace s)) (trace s').

(** The [addResource] calls of a trace, with the file they went to. *)
Definition added (evs : list (event Resource)) : list (loc * Resource) :=
  omap (fun e => match e with AddResource l res => Some (l, res) | _ => None end)
       evs.

(** The [file.write()] calls of a trace. *)
Definition persisted (evs : list (event Resource)) : list loc :=
  omap (fun e => match e with FileWrite l => Some l | _ => None end) evs.

(** The [spawnSync] calls of a trace. *)
Definition spawned (evs : list (event Resource))
    : list (string * list string) :=
  omap (fun e => match e with SpawnSync cmd args => Some (cmd, args) | _ => None end)
       evs.

(** The [new XliffFile] calls of a trace. *)
Definition constructed (evs : list (event Resource))
    : list (loc * XliffFileOptions) :=
  omap (fun e => match e with NewXliffFile l o => Some (l, o) | _ => None end)
       evs.

(** The messages a trace logged at a level. *)
Definition logged (lvl : level) (evs : list (event Resource)) : list string :=
  omap (fun e => match e with
                 | Log lvl' msg => if decide (lvl' = lvl) then Some msg else None
                 | _ => None
                 end) evs.

(** ** What [write] does to an existing file, in closed form *)

(** The file object after [addResource] on each of [resources] in turn. *)
Definition merged (f : XliffFile) (resources : list Resource) : XliffFile :=
  foldl xf_addResource f resources.

(** The trace of one [for] loop of [write] on the object [f] at [l]. *)
Fixpoint add_events (l : loc) (f : XliffFile) (resources : list Resource)
    : list (event Resource) :=
  match resources with
  | [] => []
  | res :: rest =>
      AddResource l res
      :: Log TRACE ("Added " +:+ reskey res +:+ " to "
                    +:+ xf_pathName (xf_addResource f res))
      :: add_events l (xf_addResource f res) rest
  end.

Definition buffer_events (buf : option string) : list (event Resource) :=
  match buf with
  | Some text => [Log INFO text]
  | None => []
  end.

(** The first line the import step logs. *)
Definition announce (id : string) : event Resource :=
  Log INFO ("executing xcodebuild on the " +:+ id +:+
    " project to import those translations. This may take a while...").

(** What [spawnSync] returns to an import step entered with [pre] as the
    past. *)
Definition import_outcome (pre : list (event Resource)) (id : string)
    : ProcStatus :=
  spawnSync (pre ++ [announce id]) "xcodebuild" xcodebuild_args.

(** The trace of the import step, entered with [pre] as the past. *)
Definition import_events (pre : list (event Resource)) (id : string)
    : list (event Resource) :=
  let procStatus := import_outcome pre id in
  [announce id; SpawnSync "xcodebuild" xcodebuild_args]
  ++ buffer_events (stdout procStatus)
  ++ (if decide (status procStatus = Some 0%Z) then []
      else [Log WARN "Execution failed: "])
  ++ buffer_events (stderr procStatus)
  ++ [Log INFO "xcodebuild done"].

(** The file object at the moment [file.write()] is called. *)
Definition before_persist (t : XliffFileType) (f : XliffFile) : XliffFile :=
  merged f (ts_getAll (newres t) ++ ts_getAll (pseudo t)).

(** The file object [file.write()] leaves. *)
Definition after_persist (t : XliffFileType) (f : XliffFile) : XliffFile :=
  (xf_write (before_persist t f)).1.

(** What [file.write()] throws, if it does. *)
Definition persist_failure (t : XliffFileType) (f : XliffFile) : option Exn :=
  (xf_write (before_persist t f)).2.

Definition merge_events (t : XliffFileType) (l : loc) (f : XliffFile)
    : list (event Resource) :=
  [Log TRACE "Writing xliff files";
   Log TRACE ("There are " +:+ pretty (length (ts_getAll (newres t)))
              +:+ " resources to add.")]
  ++ add_events l f (ts_getAll (newres t) ++ ts_getAll (pseudo t))
  ++ [Log INFO "Now writing out the ios xliff files"; FileWrite l].

(** What [spawnSync] returns to the [write] that starts in [s] with the
    object [f] at [l], when it gets that far. *)
Definition write_import_outcome (s : State) (l : loc) (f : XliffFile)
    : ProcStatus :=
  import_outcome (trace s ++ merge_events (this s) l f)
    (options_id (project (this s))).

Definition write_events (s : State) (l : loc) (f : XliffFile)
    : list (event Resource) :=
  merge_events (this s) l f
  ++ match persist_failure (this s) f with
     | Some _ => []
     | None =>
         if ts_isDirty (xf_getTranslationSet (after_persist (this s) f))
         then import_events (trace s ++ merge_events (this s) l f)
                (options_id (project (this s)))
         else []
     end.

(** The trace of a [write] whose [file] is a dead reference: the first
    property access through it throws, in the first loop that has a resource
    or else at [file.write()]. *)
Definition dangling_events (t : XliffFileType) : list (event Resource) :=
  [Log TRACE "Writing xliff files";
   Log TRACE ("There are " +:+ pretty (length (ts_getAll (newres t)))
              +:+ " resources to add.")]
  ++ match ts_getAll (newres t), ts_getAll (pseudo t) with
     | [], [] => [Log INFO "Now writing out the ios xliff files"]
     | _, _ => []
     end.

(** The state with another extracted set. *)
Definition with_extracted (e : TranslationSet) (s : State) : State :=
  set_this (set_extracted e) s.

(** ** Reading a run *)

(** The path of the first [newFile] call of a run. *)
Fixpoint first_newFile (cs : list call) : option string :=
  match cs with
  | [] => None
  | DoNewFile pathName :: _ => Some pathName
  | _ :: rest => first_newFile rest
  end.

(** The answers of the [handles] calls of a run, in order. *)
Definition handles_answers (cs : list call) : list bool :=
  omap (fun c => match c with
                 | DoHandles pathName =>
                     Some (String.eqb (path_normalize pathName) "en-US.xliff")
                 | _ => None
                 end) cs.

(** The object literal [newFile] passes to [new XliffFile] for a project. *)
Definition newFile_options (proj : Project) (pathName : string)
    : XliffFileOptions :=
  {| opt_project := proj;
     opt_pathName := pathName;
     opt_sourceLocale := sourceLocale proj |}.

(** [this.file], when set, refers to an object that is alive. *)
Definition file_alive (s : State) : Prop :=
  match file (this s) with
  | Some l => is_Some (heap s !! l)
  | None => True
  end.

(** The contents of a buffer that is there. *)
Definition buffer_text (buf : option string) : list string :=
  match buf with
  | Some text => [text]
  | None => []
  end.

End XliffFileType.

Arguments Normal {C A} a.
Arguments Throw {C A} e.

(** ** Reference collaborators

    Modelled from the spec: [TranslationSet.js] and [XliffFile.js] are not in
    this file.  A set is an ordered collection of records with a dirty flag,
    set by a mutation; [addSet] appends; a file wraps one path and one
    underlying set, [addResource] appends to that set, and persisting keeps
    the flag as it finds it.  The importer of this model always fails with
    status 65.  These serve as the concrete world of the examples. *)
Module Ref.

Record tset := {
  resources : list string;
  dirty : bool;
}.

Record xfile := {
  pathName : string;
  locale : string;
  underlying : tset;
}.

Definition getAll (a : tset) : list string := resources a.

Definition addSet (a b : tset) : tset :=
  {| resources := resources a ++ resources b;
     dirty := match resources b with [] => dirty a | _ => true end |}.

Definition empty (_ : string) : tset := {| resources := []; dirty := false |}.

Definition create (opts : XliffFileOptions) : xfile :=
  {| pathName := opt_pathName opts;
     locale := opt_sourceLocale opts;
     underlying := empty (opt_sourceLocale opts) |}.

Definition addResource (f : xfile) (res : string) : xfile :=
  {| pathName := pathName f;
     locale := locale f;
     underlying := {| resources := resources (underlying f) ++ [res];
                      dirty := true |} |}.

Definition persist (f : xfile) : xfile * option string := (f, None).

Definition failing_xcodebuild (_ : list (event string)) (_ : string)
    (_ : list string) : ProcStatus :=
  {| status := Some 65%Z;
     stdout := Some "Build settings from command line";
     stderr := Some "xcodebuild: error: feelgood.xcodeproj does not exist." |}.

Definition collab : Collaborators :=
  {| Resource := string;
     reskey := fun res => res;
     TranslationSet := tset;
     ts_getAll := getAll;
     ts_addSet := addSet;
     ts_isDirty := dirty;
     ts_new := empty;
     XliffFile := xfile;
     Exn := string;
     xf_new := create;
     xf_pathName := pathName;
     xf_addResource := addResource;
     xf_write := persist;
     xf_getTranslationSet := underlying;
     path_normalize := Path.normalize;
     spawnSync := failing_xcodebuild |}.

Definition proj : Project :=
  {| options_id := "feelgood"; sourceLocale := "en-US" |}.

(** The object [newFile("en-US.xliff")] makes for [proj]. *)
Definition en_US_file : xfile :=
  {| pathName := "en-US.xliff"; locale := "en-US";
     underlying := {| resources := []; dirty := false |} |}.

(** A set that holds one record of an earlier extraction. *)
Definition old_set : tset := {| resources := ["old.key"]; dirty := true |}.

(** A fresh file type of the project [proj], in an empty world. *)
Definition fresh_state : @State collab := @initial collab proj ∅ [].

(** The same after the host asked for the file and the extraction put two
    new resources and one pseudo resource into the live sets. *)
Definition loaded_state : @State collab :=
  let s := (@newFile collab "en-US.xliff" fresh_state).2 in
  @set_this collab
    (fun t =>
       {| type := type t; project := project t; files := files t;
          extensions := extensions t; datatype := datatype t;
          extracted := extracted t;
          newres := {| resources := ["greeting"; "farewell"]; dirty := true |};
          pseudo := {| resources := ["greeting.pseudo"]; dirty := true |};
          file := file t |}) s.

(** A file that cannot be written: persisting throws and leaves the object
    as it is. *)
Definition refuse (f : xfile) : xfile * option string :=
  (f, Some "EACCES: permission denied").

(** The reference collaborators with such a file. *)
Definition read_only : Collaborators :=
  {| Resource := string;
     reskey := fun res => res;
     TranslationSet := tset;
     ts_getAll := getAll;
     ts_addSet := addSet;
     ts_isDirty := dirty;
     ts_new := empty;
     XliffFile := xfile;
     Exn := string;
     xf_new := create;
     xf_pathName := pathName;
     xf_addResource := addResource;
     xf_write := refuse;
     xf_getTranslationSet := underlying;
     path_normalize := Path.normalize;
     spawnSync := failing_xcodebuild |}.

(** [loaded_state] in that world. *)
Definition read_only_state : @State read_only :=
  let s := (@newFile read_only "en-US.xliff" (@initial read_only proj ∅ [])).2 in
  @set_this read_only
    (fun t =>
       {| type := type t; project := project t; files := files t;
          extensions := extensions t; datatype := datatype t;
          extracted := extracted t;
          newres := {| resources := ["greeting"; "farewell"]; dirty := true |};
          pseudo := {| resources := ["greeting.pseudo"]; dirty := true |};
          file := file t |}) s.

(** [fresh_state] after [newFile], before anything was extracted. *)
Definition created_state : @State collab :=
  (@newFile collab "en-US.xliff" fresh_state).2.

(** A file type with its file, in a world that has another [XliffFile]
    object, at 7. *)
Definition shared_state : @State collab :=
  (@newFile collab "en-US.xliff"
     (@initial collab proj {[7 := en_US_file]} [])).2.

End Ref.

(** * Properties *)

Section Properties.

Context `{C : Collaborators}.

Implicit Types (s : State) (l : loc) (f : XliffFile).

Ltac run := unfold mbind, mret, M_bind, M_ret, bind, ret, gets, modify,
  throw, logger, deref; simpl.

Lemma state_eta s :
  {| this := this s; heap := heap s; global_ret := global_ret s;
     trace := trace s |} = s.
Proof. by destruct s. Qed.

Lemma add_events_app l f rs1 rs2 :
  add_events l f (rs1 ++ rs2)
  = add_events l f rs1 ++ add_events l (merged f rs1) rs2.
Proof.
  revert f. induction rs1 as [|res rs1 IH]; intros f; simpl; [done|].
  by rewrite IH.
Qed.

Lemma addResources_run l rs : forall s f,
  heap s !! l = Some f ->
  addResources l rs s
  = (Normal tt,
     {| this := this s; heap := <[l := merged f rs]> (heap s);
        global_ret := global_ret s;
        trace := trace s ++ add_events l f rs |}).
Proof.
  induction rs as [|res rs IH]; intros s f Hf; simpl.
  - run. rewrite insert_id by done. rewrite app_nil_r. by rewrite state_eta.
  - unfold file_addResource, file_pathName. run. rewrite Hf. simpl.
    rewrite lookup_insert_eq. simpl.
    erewrite IH; [|simpl; apply lookup_insert_eq].
    simpl. rewrite insert_insert_eq. rewrite <- !app_assoc. done.
Qed.

Lemma write_no_file s :
  file (this s) = None ->
  write s = (Normal tt, record (Log TRACE "Writing xliff files") s).
Proof. intros Hnone. unfold write. run. by rewrite Hnone. Qed.

Lemma file_write_run s l f :
  heap s !! l = Some f ->
  file_write l s
  = (match (xf_write f).2 with
     | Some e => Throw (FromFile e)
     | None => Normal tt
     end,
     {| this := this s; heap := <[l := (xf_write f).1]> (heap s);
        global_ret := global_ret s; trace := trace s ++ [FileWrite l] |}).
Proof.
  intros Hf. unfold file_write. run. rewrite Hf. simpl.
  by destruct (xf_write f).2.
Qed.

Lemma log_buffer_run buf s :
  log_buffer buf s
  = (Normal tt,
     {| this := this s; heap := heap s; global_ret := global_ret s;
        trace := trace s ++ buffer_events buf |}).
Proof.
  destruct buf; simpl; run; [done|]. by rewrite app_nil_r, state_eta.
Qed.

Lemma importLocalizations_run s :
  importLocalizations s
  = (Normal tt,
     {| this := this s; heap := heap s; global_ret := global_ret s;
        trace := trace s
                 ++ import_events (trace s) (options_id (project (this s))) |}).
Proof.
  unfold importLocalizations, spawn, import_events, import_outcome, announce.
  run.
  rewrite log_buffer_run. simpl.
  case_decide; run; rewrite log_buffer_run; unfold record; simpl;
    repeat (rewrite <- app_assoc; simpl); done.
Qed.

Lemma write_run s l f :
  file (this s) = Some l ->
  heap s !! l = Some f ->
  write s
  = (match persist_failure (this s) f with
     | Some e => Throw (FromFile e)
     | None => Normal tt
     end,
     {| this := this s;
        heap := <[l := after_persist (this s) f]> (heap s);
        global_ret := global_ret s;
        trace := trace s ++ write_events s l f |}).
Proof.
  intros Hfile Hf. unfold write. run. rewrite Hfile. simpl.
  erewrite addResources_run by (simpl; exact Hf). simpl.
  erewrite addResources_run by (simpl; apply lookup_insert_eq). simpl.
  erewrite file_write_run by (simpl; apply lookup_insert_eq). simpl.
  rewrite !insert_insert_eq.
  unfold write_events, merge_events, persist_failure, after_persist,
    before_persist.
  rewrite add_events_app. unfold merged. rewrite foldl_app.
  destruct (xf_write _).2 as [e|]; simpl.
  { f_equal. f_equal. rewrite app_nil_r.
    repeat (rewrite <- app_assoc; simpl). done. }
  unfold file_isDirty. run. rewrite lookup_insert_eq. simpl.
  destruct (ts_isDirty _); simpl.
  - rewrite importLocalizations_run. simpl. f_equal. f_equal.
    repeat (rewrite <- app_assoc; simpl). done.
  - f_equal. f_equal. rewrite app_nil_r.
    repeat (rewrite <- app_assoc; simpl). done.
Qed.

(** *** Reading the closed form *)

Lemma since_app s s' evs : trace s' = trace s ++ evs -> since s s' = evs.
Proof. intros Htr. unfold since. rewrite Htr. apply drop_app_length. Qed.

Lemma since_write s l f :
  file (this s) = Some l ->
  heap s !! l = Some f ->
  since s (write s).2 = write_events s l f.
Proof.
  intros Hfile Hf. apply since_app. by rewrite (write_run s l f).
Qed.

Lemma added_add_events l f rs :
  added (add_events l f rs) = (fun res => (l, res)) <$> rs.
Proof.
  revert f. induction rs as [|res rs IH]; intros f; [done|].
  simpl. unfold added in *. simpl. by rewrite IH.
Qed.

Lemma persisted_add_events l f rs : persisted (add_events l f rs) = [].
Proof.
  revert f. induction rs as [|res rs IH]; intros f; [done|].
  simpl. unfold persisted in *. simpl. by rewrite IH.
Qed.

Lemma spawned_add_events l f rs : spawned (add_events l f rs) = [].
Proof.
  revert f. induction rs as [|res rs IH]; intros f; [done|].
  simpl. unfold spawned in *. simpl. by rewrite IH.
Qed.

Lemma logged_WARN_add_events l f rs : logged WARN (add_events l f rs) = [].
Proof.
  revert f. induction rs as [|res rs IH]; intros f; [done|].
  simpl. unfold logged in *. simpl. by rewrite IH.
Qed.

Lemma added_merge_events t l f :
  added (merge_events t l f)
  = (fun res => (l, res)) <$> (ts_getAll (newres t) ++ ts_getAll (pseudo t)).
Proof.
  unfold merge_events, added. rewrite !omap_app. simpl.
  fold (added (add_events l f (ts_getAll (newres t) ++ ts_getAll (pseudo t)))).
  rewrite added_add_events. by rewrite app_nil_r.
Qed.

Lemma persisted_merge_events t l f : persisted (merge_events t l f) = [l].
Proof.
  unfold merge_events, persisted. rewrite !omap_app. simpl.
  fold (persisted
          (add_events l f (ts_getAll (newres t) ++ ts_getAll (pseudo t)))).
  by rewrite persisted_add_events.
Qed.

Lemma spawned_merge_events t l f : spawned (merge_events t l f) = [].
Proof.
  unfold merge_events, spawned. rewrite !omap_app. simpl.
  fold (spawned
          (add_events l f (ts_getAll (newres t) ++ ts_getAll (pseudo t)))).
  by rewrite spawned_add_events.
Qed.

Lemma logged_WARN_merge_events t l f : logged WARN (merge_events t l f) = [].
Proof.
  unfold merge_events, logged. rewrite !omap_app. simpl.
  fold (logged WARN
          (add_events l f (ts_getAll (newres t) ++ ts_getAll (pseudo t)))).
  by rewrite logged_WARN_add_events.
Qed.

Lemma added_import_events pre id : added (import_events pre id) = [].
Proof.
  unfold import_events, added, announce. rewrite !omap_app. simpl.
  destruct (stdout _), (stderr _); simpl; by case_decide.
Qed.

Lemma persisted_import_events pre id : persisted (import_events pre id) = [].
Proof.
  unfold import_events, persisted, announce. rewrite !omap_app. simpl.
  destruct (stdout _), (stderr _); simpl; by case_decide.
Qed.

Lemma spawned_import_events pre id :
  spawned (import_events pre id) = [("xcodebuild", xcodebuild_args)].
Proof.
  unfold import_events, spawned, announce. rewrite !omap_app. simpl.
  destruct (stdout _), (stderr _); simpl; by case_decide.
Qed.

Lemma logged_WARN_import_events pre id :
  logged WARN (import_events pre id)
  = if decide (status (import_outcome pre id) = Some 0%Z) then []
    else ["Execution failed: "].
Proof.
  unfold import_events, logged, announce. rewrite !omap_app. simpl.
  destruct (stdout _), (stderr _); simpl; by case_decide.
Qed.

(** *** A dead reference *)

Lemma addResources_dangling l rs s :
  heap s !! l = None ->
  addResources l rs s
  = (match rs with [] => Normal tt | _ => Throw TypeError end, s).
Proof.
  intros Hl. destruct rs as [|res rs]; simpl; [done|].
  unfold file_addResource. run. by rewrite Hl.
Qed.

Lemma write_dangling s l :
  file (this s) = Some l ->
  heap s !! l = None ->
  write s
  = (Throw TypeError,
     {| this := this s; heap := heap s; global_ret := global_ret s;
        trace := trace s ++ dangling_events (this s) |}).
Proof.
  intros Hfile Hl. unfold write, dangling_events. run. rewrite Hfile. simpl.
  rewrite addResources_dangling by done.
  destruct (ts_getAll (newres (this s))) as [|r1 rs1]; simpl.
  2:{ unfold record. simpl. by rewrite <- app_assoc. }
  rewrite addResources_dangling by done.
  destruct (ts_getAll (pseudo (this s))) as [|r2 rs2]; simpl.
  2:{ unfold record. simpl. by rewrite <- app_assoc. }
  unfold file_write. run. rewrite Hl. unfold record. simpl.
  by repeat (rewrite <- app_assoc; simpl).
Qed.

(** The three ways a [write] can go. *)
Lemma write_cases s :
  (file (this s) = None
   /\ write s = (Normal tt, record (Log TRACE "Writing xliff files") s))
  \/ (exists l, file (this s) = Some l /\ heap s !! l = None
      /\ write s
         = (Throw TypeError,
            {| this := this s; heap := heap s; global_ret := global_ret s;
               trace := trace s ++ dangling_events (this s) |}))
  \/ (exists l f, file (this s) = Some l /\ heap s !! l = Some f
      /\ write s
         = (match persist_failure (this s) f with
            | Some e => Throw (FromFile e)
            | None => Normal tt
            end,
            {| this := this s;
               heap := <[l := after_persist (this s) f]> (heap s);
               global_ret := global_ret s;
               trace := trace s ++ write_events s l f |})).
Proof.
  destruct (file (this s)) as [l|] eqn:Hfile.
  - destruct (heap s !! l) as [f|] eqn:Hl.
    + right. right. exists l, f. split_and!; try done. by apply write_run.
    + right. left. exists l. split_and!; try done. by apply (write_dangling s l).
  - left. split; [done|]. by apply write_no_file.
Qed.

Lemma write_this s : this (write s).2 = this s.
Proof.
  destruct (write_cases s) as [[_ ->]|[(l & _ & _ & ->)|(l & f & _ & _ & ->)]];
    done.
Qed.

(** *** [newFile] *)

Lemma newFile_fresh pathName s :
  file (this s) = None ->
  newFile pathName s
  = (Normal (Some (fresh (dom (heap s)))),
     {| this := set_file (Some (fresh (dom (heap s)))) (this s);
        heap := <[fresh (dom (heap s)) :=
                    xf_new {| opt_project := project (this s);
                              opt_pathName := pathName;
                              opt_sourceLocale :=
                                sourceLocale (project (this s)) |}]> (heap s);
        global_ret := global_ret s;
        trace := trace s
                 ++ [NewXliffFile (fresh (dom (heap s)))
                       {| opt_project := project (this s);
                          opt_pathName := pathName;
                          opt_sourceLocale :=
                            sourceLocale (project (this s)) |}] |}).
Proof. intros Hnone. unfold newFile, new_XliffFile. run. by rewrite Hnone. Qed.

Lemma newFile_existing pathName s l :
  file (this s) = Some l ->
  newFile pathName s = (Normal (Some l), s).
Proof. intros Hfile. unfold newFile. run. rewrite Hfile. simpl. by rewrite Hfile. Qed.

Lemma fresh_not_in_heap s : heap s !! fresh (dom (heap s)) = None.
Proof. apply not_elem_of_dom. apply is_fresh. Qed.

(** *** Calls and runs *)

Lemma exec_file c s :
  is_newFile c = false -> file (this (exec c s)) = file (this s).
Proof.
  destruct c; simpl; try done; intros _.
  by rewrite write_this.
Qed.

Lemma run_snoc cs c s : run (cs ++ [c]) s = exec c (run cs s).
Proof. unfold run. by rewrite foldl_app. Qed.

Lemma run_file cs s :
  Forall (fun c => is_newFile c = false) cs ->
  file (this (run cs s)) = file (this s).
Proof.
  induction cs as [|c cs IH] using rev_ind; intros Hcs; [done|].
  apply Forall_app in Hcs as [Hcs Hc]. inversion_clear Hc as [|? ? Hc' _].
  rewrite run_snoc. rewrite exec_file; [by apply IH | exact Hc'].
Qed.

Lemma exec_sets c s :
  newres (this (exec c s)) = newres (this s)
  /\ pseudo (this (exec c s)) = pseudo (this s)
  /\ extracted (this (exec c s))
     = match c with
       | DoAddSet set => ts_addSet (extracted (this s)) set
       | _ => extracted (this s)
       end.
Proof.
  destruct c; simpl; try done.
  - by rewrite write_this.
  - destruct (file (this s)) as [l|] eqn:Hfile.
    + by rewrite (newFile_existing _ _ l).
    + by rewrite newFile_fresh.
Qed.

Lemma run_sets cs s :
  (forall a b, ts_getAll a ⊆ ts_getAll (ts_addSet a b)) ->
  newres (this (run cs s)) = newres (this s)
  /\ pseudo (this (run cs s)) = pseudo (this s)
  /\ ts_getAll (extracted (this s)) ⊆ ts_getAll (extracted (this (run cs s))).
Proof.
  intros Hgrow. induction cs as [|c cs IH] using rev_ind; [done|].
  rewrite run_snoc. destruct IH as (IHn & IHp & IHe).
  destruct (exec_sets c (run cs s)) as (-> & -> & ->).
  split_and!; try done.
  destruct c; try done. etrans; [exact IHe | apply Hgrow].
Qed.

(** *** What [write] adds *)

Lemma added_write_events s l f :
  added (write_events s l f)
  = (fun res => (l, res))
    <$> (ts_getAll (newres (this s)) ++ ts_getAll (pseudo (this s))).
Proof.
  unfold write_events, added. rewrite omap_app.
  fold (added (merge_events (this s) l f)). rewrite added_merge_events.
  destruct (persist_failure _ _); [by rewrite app_nil_r|].
  destruct (ts_isDirty _); [|by rewrite app_nil_r].
  fold (added (import_events (trace s ++ merge_events (this s) l f)
                 (options_id (project (this s))))).
  by rewrite added_import_events, app_nil_r.
Qed.

Lemma added_write s l res :
  (l, res) ∈ added (since s (write s).2) ->
  file (this s) = Some l
  /\ (res ∈ ts_getAll (newres (this s)) \/ res ∈ ts_getAll (pseudo (this s))).
Proof.
  destruct (write_cases s)
    as [[_ Hw]|[(l' & _ & _ & Hw)|(l' & f & Hfile & Hf & _)]].
  - rewrite Hw. simpl. unfold since. simpl. rewrite drop_app_length.
    simpl. by intros ?%elem_of_nil.
  - rewrite Hw. simpl. unfold since. simpl. rewrite drop_app_length.
    unfold dangling_events.
    destruct (ts_getAll (newres _)), (ts_getAll (pseudo _)); simpl;
      by intros ?%elem_of_nil.
  - rewrite (since_write s l' f), added_write_events by done.
    intros Hin. apply list_elem_of_fmap in Hin as (res' & Heq & Hin).
    injection Heq as -> ->. split; [done|]. by apply elem_of_app.
Qed.

Lemma write_ignores_extracted s e :
  write (with_extracted e s) = ((write s).1, with_extracted e (write s).2).
Proof.
  destruct (write_cases s)
    as [[Hfile Hw]|[(l & Hfile & Hl & Hw)|(l & f & Hfile & Hf & Hw)]];
    rewrite Hw; simpl.
  - by rewrite write_no_file.
  - by rewrite (write_dangling _ l).
  - by rewrite (write_run _ l f).
Qed.

Lemma spawned_write s l f :
  file (this s) = Some l ->
  heap s !! l = Some f ->
  persist_failure (this s) f = None ->
  spawned (since s (write s).2)
  = if ts_isDirty (xf_getTranslationSet (after_persist (this s) f))
    then [("xcodebuild", xcodebuild_args)]
    else [].
Proof.
  intros Hfile Hf Hok. rewrite (since_write s l f) by done.
  unfold write_events, spawned. rewrite omap_app.
  fold (spawned (merge_events (this s) l f)). rewrite spawned_merge_events.
  rewrite Hok. simpl. destruct (ts_isDirty _); [|done].
  apply spawned_import_events.
Qed.

(** ** The claims about [write] *)

(** C1. With a file in place, one [write] calls [addResource] on that file
    once for each record of the new set and then once for each record of the
    pseudo set, in the order [getAll] lists them.  All of these calls come
    before the file is persisted, and the object persisted is the file after
    these additions in that order. *)
Theorem write_adds_new_then_pseudo s l f :
  file (this s) = Some l ->
  heap s !! l = Some f ->
  added (since s (write s).2)
  = ((fun res => (l, res)) <$> ts_getAll (newres (this s)))
    ++ ((fun res => (l, res)) <$> ts_getAll (pseudo (this s)))
  /\ heap (write s).2 !! l
     = Some (xf_write
               (foldl xf_addResource f
                  (ts_getAll (newres (this s))
                   ++ ts_getAll (pseudo (this s))))).1
  /\ exists before after,
       since s (write s).2 = before ++ FileWrite l :: after
       /\ added before = added (since s (write s).2)
       /\ added after = [].
Proof.
  intros Hfile Hf. rewrite (since_write s l f) by done.
  rewrite added_write_events, fmap_app. split; [done|]. split.
  { rewrite (write_run s l f) by done. simpl. by rewrite lookup_insert_eq. }
  exists ([Log TRACE "Writing xliff files";
           Log TRACE ("There are "
                      +:+ pretty (length (ts_getAll (newres (this s))))
                      +:+ " resources to add.")]
          ++ add_events l f (ts_getAll (newres (this s))
                             ++ ts_getAll (pseudo (this s)))
          ++ [Log INFO "Now writing out the ios xliff files"]).
  exists (match persist_failure (this s) f with
          | Some _ => []
          | None =>
              if ts_isDirty (xf_getTranslationSet (after_persist (this s) f))
              then import_events (trace s ++ merge_events (this s) l f)
                     (options_id (project (this s)))
              else []
          end).
  split_and!.
  - unfold write_events, merge_events. simpl.
    by repeat (rewrite <- app_assoc; simpl).
  - unfold added. simpl. rewrite omap_app.
    fold (added (add_events l f (ts_getAll (newres (this s))
                                 ++ ts_getAll (pseudo (this s))))).
    rewrite added_add_events, fmap_app. simpl. by rewrite app_nil_r.
  - destruct (persist_failure _ _); [done|].
    destruct (ts_isDirty _); [|done]. apply added_import_events.
Qed.

(** C2. With a file in place and a persist that returns, [write] runs the
    importer exactly once when the file's translation set is dirty right
    after the persist, and not at all when it is clean. *)
Theorem write_imports_iff_dirty s l f :
  file (this s) = Some l ->
  heap s !! l = Some f ->
  (xf_write
     (foldl xf_addResource f
        (ts_getAll (newres (this s)) ++ ts_getAll (pseudo (this s))))).2
  = None ->
  spawned (since s (write s).2)
  = if ts_isDirty
         (xf_getTranslationSet
            (xf_write
               (foldl xf_addResource f
                  (ts_getAll (newres (this s))
                   ++ ts_getAll (pseudo (this s))))).1)
    then [("xcodebuild", xcodebuild_args)]
    else [].
Proof.
  intros Hfile Hf Hok. exact (spawned_write s l f Hfile Hf Hok).
Qed.

(** A persist that throws ends [write] there: the exception goes to the
    caller and the importer is not run. *)
Lemma write_persist_failure s l f e :
  file (this s) = Some l ->
  heap s !! l = Some f ->
  persist_failure (this s) f = Some e ->
  (write s).1 = Throw (FromFile e) /\ spawned (since s (write s).2) = [].
Proof.
  intros Hfile Hf Hfail. rewrite (since_write s l f) by done.
  rewrite (write_run s l f) by done. cbn [fst]. rewrite Hfail.
  split; [done|].
  unfold write_events, spawned. rewrite omap_app, Hfail.
  fold (spawned (merge_events (this s) l f)).
  by rewrite spawned_merge_events.
Qed.

(** C3. Without a file, [write] returns normally and does nothing but log
    its first trace line: no [addResource], no persist, no importer, no
    warning; and a file type on which [newFile] was never called has no
    file. *)
Theorem write_without_file_is_noop :
  (forall s,
     file (this s) = None ->
     write s = (Normal tt, record (Log TRACE "Writing xliff files") s)
     /\ added (since s (write s).2) = []
     /\ persisted (since s (write s).2) = []
     /\ spawned (since s (write s).2) = []
     /\ logged WARN (since s (write s).2) = []
     /\ this (write s).2 = this s
     /\ heap (write s).2 = heap s)
  /\ (forall proj h tr cs,
        Forall (fun c => is_newFile c = false) cs ->
        file (this (run cs (initial proj h tr))) = None).
Proof.
  split.
  - intros s Hnone. rewrite write_no_file by done. simpl.
    unfold since. simpl. rewrite drop_app_length. done.
  - intros proj h tr cs Hcs. by rewrite run_file.
Qed.

(** C4. [write] does not look at the extracted set: with any other
    extracted set it completes the same way and leaves the same file, trace
    and sets; and a record that is in neither the new nor the pseudo set is
    not added to the file by a [write] that follows [addSet], whatever set
    was merged. *)
Theorem write_leaves_extracted_out :
  (forall s e,
     write (with_extracted e s) = ((write s).1, with_extracted e (write s).2))
  /\ (forall s set,
        (addSet set s).2
        = with_extracted (ts_addSet (extracted (this s)) set) s)
  /\ (forall s set res l,
        res ∉ ts_getAll (newres (this s)) ->
        res ∉ ts_getAll (pseudo (this s)) ->
        (l, res) ∉ added (since (addSet set s).2 (write (addSet set s).2).2)).
Proof.
  split_and!.
  - apply write_ignores_extracted.
  - done.
  - intros s set res l Hnew Hpseudo Hin.
    apply added_write in Hin as [_ [Hin|Hin]]; simpl in Hin; tauto.
Qed.

(** [write_import_outcome] is what the one [spawnSync] call of such a
    [write] returned: the oracle, asked at the trace that call found. *)
Lemma write_import_outcome_at_call s l f :
  file (this s) = Some l ->
  heap s !! l = Some f ->
  persist_failure (this s) f = None ->
  ts_isDirty (xf_getTranslationSet (after_persist (this s) f)) = true ->
  exists pre post,
    trace (write s).2
    = pre ++ SpawnSync "xcodebuild" xcodebuild_args :: post
    /\ spawned post = []
    /\ write_import_outcome s l f = spawnSync pre "xcodebuild" xcodebuild_args.
Proof.
  intros Hfile Hf Hok Hdirty. rewrite (write_run s l f) by done.
  cbn [snd trace]. unfold write_events. rewrite Hok, Hdirty.
  exists (trace s ++ merge_events (this s) l f
          ++ [announce (options_id (project (this s)))]).
  exists (buffer_events (stdout (write_import_outcome s l f))
          ++ (if decide (status (write_import_outcome s l f) = Some 0%Z)
              then [] else [Log WARN "Execution failed: "])
          ++ buffer_events (stderr (write_import_outcome s l f))
          ++ [Log INFO "xcodebuild done"]).
  split_and!.
  - unfold import_events. fold (write_import_outcome s l f).
    by repeat (rewrite <- app_assoc; simpl).
  - unfold spawned. rewrite !omap_app.
    destruct (stdout _), (stderr _); simpl; by case_decide.
  - unfold write_import_outcome, import_outcome. by rewrite app_assoc.
Qed.

(** C7. With a file in place, a persist that returns and a dirty set, an
    importer that exits with a status other than 0 leaves [write] completing
    normally.  The failure shows as the one warning in the log; the file was
    persisted once and stays as persisted, the importer was run once, and
    the file type is as before. *)
Theorem write_survives_importer_failure s l f :
  file (this s) = Some l ->
  heap s !! l = Some f ->
  persist_failure (this s) f = None ->
  ts_isDirty (xf_getTranslationSet (after_persist (this s) f)) = true ->
  status (write_import_outcome s l f) <> Some 0%Z ->
  (write s).1 = Normal tt
  /\ logged WARN (since s (write s).2) = ["Execution failed: "]
  /\ persisted (since s (write s).2) = [l]
  /\ spawned (since s (write s).2) = [("xcodebuild", xcodebuild_args)]
  /\ heap (write s).2 = <[l := after_persist (this s) f]> (heap s)
  /\ this (write s).2 = this s.
Proof.
  intros Hfile Hf Hok Hdirty Hstatus. rewrite (since_write s l f) by done.
  rewrite (write_run s l f) by done. cbn [fst snd heap this].
  unfold write_events. rewrite Hok, Hdirty.
  fold (write_import_outcome s l f) in *.
  split_and!; try done.
  - unfold logged. rewrite omap_app.
    fold (logged WARN (merge_events (this s) l f)).
    fold (logged WARN (import_events (trace s ++ merge_events (this s) l f)
                         (options_id (project (this s))))).
    rewrite logged_WARN_merge_events, logged_WARN_import_events.
    fold (write_import_outcome s l f). by case_decide.
  - unfold persisted. rewrite omap_app.
    fold (persisted (merge_events (this s) l f)).
    fold (persisted (import_events (trace s ++ merge_events (this s) l f)
                       (options_id (project (this s))))).
    by rewrite persisted_merge_events, persisted_import_events.
  - unfold spawned. rewrite omap_app.
    fold (spawned (merge_events (this s) l f)).
    fold (spawned (import_events (trace s ++ merge_events (this s) l f)
                     (options_id (project (this s))))).
    by rewrite spawned_merge_events, spawned_import_events.
Qed.

(** C8. [write] leaves the new, pseudo and extracted sets as they are.  No
    method assigns or changes the new or the pseudo set, and the extracted
    set changes only in [addSet], into what [TranslationSet.addSet] makes of
    it.  So when that collaborator keeps the records of the receiving set,
    no run of calls loses a record of any of the three sets. *)
Theorem sets_only_grow :
  (forall s,
     newres (this (write s).2) = newres (this s)
     /\ pseudo (this (write s).2) = pseudo (this s)
     /\ extracted (this (write s).2) = extracted (this s))
  /\ (forall c s,
        newres (this (exec c s)) = newres (this s)
        /\ pseudo (this (exec c s)) = pseudo (this s)
        /\ extracted (this (exec c s))
           = match c with
             | DoAddSet set => ts_addSet (extracted (this s)) set
             | _ => extracted (this s)
             end)
  /\ ((forall a b, ts_getAll a ⊆ ts_getAll (ts_addSet a b)) ->
      forall cs s,
        newres (this (run cs s)) = newres (this s)
        /\ pseudo (this (run cs s)) = pseudo (this s)
        /\ ts_getAll (extracted (this s))
           ⊆ ts_getAll (extracted (this (run cs s)))).
Proof.
  split_and!.
  - intros s. by rewrite write_this.
  - apply exec_sets.
  - intros Hgrow cs s. by apply run_sets.
Qed.

(** ** The claims about the file object *)

(** C5. On a file type without a file, [newFile(pathA)] constructs one
    [XliffFile] from the project, [pathA] and the project's source locale,
    stores the reference and returns it; a following [newFile(pathB)]
    returns the same reference and changes nothing, so the object is still
    the one made for [pathA].  In general [newFile] on a file type that has
    a file returns that file and leaves the state alone, whatever the
    path. *)
Theorem newFile_returns_the_singleton :
  (forall s pathA pathB,
     file (this s) = None ->
     exists l,
       (newFile pathA s).1 = Normal (Some l)
       /\ heap s !! l = None
       /\ heap (newFile pathA s).2 !! l
          = Some (xf_new {| opt_project := project (this s);
                            opt_pathName := pathA;
                            opt_sourceLocale :=
                              sourceLocale (project (this s)) |})
       /\ file (this (newFile pathA s).2) = Some l
       /\ constructed (since s (newFile pathA s).2)
          = [(l, {| opt_project := project (this s);
                    opt_pathName := pathA;
                    opt_sourceLocale := sourceLocale (project (this s)) |})]
       /\ newFile pathB (newFile pathA s).2
          = (Normal (Some l), (newFile pathA s).2))
  /\ (forall s l pathName,
        file (this s) = Some l ->
        newFile pathName s = (Normal (Some l), s)).
Proof.
  split.
  - intros s pathA pathB Hnone. exists (fresh (dom (heap s))).
    rewrite newFile_fresh by done. cbn [fst snd heap this].
    split_and!; try done.
    + apply fresh_not_in_heap.
    + apply lookup_insert_eq.
    + unfold since. simpl. by rewrite drop_app_length.
  - intros s l pathName Hfile. by apply newFile_existing.
Qed.

(** C9. [getResourceFile] returns [this.file] and leaves the state as it
    is; on a file type on which [newFile] was never called that is the
    absent value; right after a [newFile] it is the reference [newFile]
    returned, which is never the absent value. *)
Theorem getResourceFile_reads_the_singleton :
  (forall s, getResourceFile s = (Normal (file (this s)), s))
  /\ (forall proj h tr cs,
        Forall (fun c => is_newFile c = false) cs ->
        (getResourceFile (run cs (initial proj h tr))).1 = Normal None)
  /\ (forall s pathName,
        getResourceFile (newFile pathName s).2
        = ((newFile pathName s).1, (newFile pathName s).2)
        /\ exists l, (newFile pathName s).1 = Normal (Some l)).
Proof.
  split_and!; try done.
  - intros proj h tr cs Hcs. unfold getResourceFile, gets. simpl.
    by rewrite run_file.
  - intros s pathName. destruct (file (this s)) as [l|] eqn:Hfile.
    + rewrite (newFile_existing _ _ l) by done. simpl.
      unfold getResourceFile, gets. rewrite Hfile. eauto.
    + rewrite newFile_fresh by done. eauto.
Qed.

(** *** [handles] *)

Lemma handles_run pathName s :
  handles pathName s
  = (Normal (String.eqb (path_normalize pathName) "en-US.xliff"),
     {| this := this s; heap := heap s;
        global_ret :=
          Some (String.eqb (path_normalize pathName) "en-US.xliff");
        trace := trace s
                 ++ [Log DEBUG ("XliffFileType handles " +:+ pathName +:+ "?");
                     Log DEBUG
                       (if String.eqb (path_normalize pathName) "en-US.xliff"
                        then "Yes" else "No")] |}).
Proof.
  unfold handles. run. unfold record. simpl.
  by repeat (rewrite <- app_assoc; simpl).
Qed.

Lemma handles_true pathName s :
  (handles pathName s).1 = Normal true
  <-> path_normalize pathName = "en-US.xliff".
Proof.
  rewrite handles_run. simpl. rewrite <- String.eqb_eq.
  split; [by intros [= ->] | by intros ->].
Qed.

Lemma handles_false pathName s :
  (handles pathName s).1 = Normal false
  <-> path_normalize pathName <> "en-US.xliff".
Proof.
  rewrite handles_run. simpl. rewrite <- String.eqb_neq.
  split; [by intros [= ->] | by intros ->].
Qed.

End Properties.

(** ** The claims about [handles] and the importer's arguments *)

(** C6. [handles] answers true exactly when [path.normalize] of the path is
    [en-US.xliff], and false otherwise.  On a POSIX host it accepts
    [en-US.xliff] and [./en-US.xliff] and rejects [fr-FR.xliff] and
    [en-US.xliff.bak].  The answer is the same in every state of the file
    type, so it does not depend on the extension list. *)
Theorem handles_only_the_canonical_name :
  (forall (C : Collaborators) (s : State) (pathName : string),
     ((handles pathName s).1 = Normal true
      <-> path_normalize pathName = "en-US.xliff")
     /\ ((handles pathName s).1 = Normal false
         <-> path_normalize pathName <> "en-US.xliff"))
  /\ (forall (C : Collaborators) (s : @State (on_posix C)),
        (handles "en-US.xliff" s).1 = Normal true
        /\ (handles "./en-US.xliff" s).1 = Normal true
        /\ (handles "fr-FR.xliff" s).1 = Normal false
        /\ (handles "en-US.xliff.bak" s).1 = Normal false)
  /\ (forall (C : Collaborators) (s s' : State) (pathName : string),
        (handles pathName s).1 = (handles pathName s').1).
Proof.
  split_and!.
  - intros C s pathName. split; [apply handles_true | apply handles_false].
  - intros C s. by rewrite !handles_run.
  - intros C s s' pathName. by rewrite !handles_run.
Qed.

(** C10. Every importer call of a [write] is [xcodebuild] with the five
    fixed arguments, whatever the state and whatever the file's path.  A
    file bound to [en-US.xliff] is imported from [./en.xliff]. *)
Theorem importer_arguments_fixed :
  (forall (C : Collaborators) (s : State),
     Forall
       (fun c =>
          c = ("xcodebuild",
               ["-importLocalizations"; "-localizationPath"; "./en.xliff";
                "-project"; "feelgood.xcodeproj"]))
       (spawned (since s (write s).2)))
  /\ (let s : @State Ref.collab := Ref.loaded_state in
      file (this s) = Some 0
      /\ (Ref.pathName <$> @heap Ref.collab s !! 0) = Some "en-US.xliff"
      /\ spawned (since s (write s).2)
         = [("xcodebuild",
             ["-importLocalizations"; "-localizationPath"; "./en.xliff";
              "-project"; "feelgood.xcodeproj"])]).
Proof.
  split.
  - intros C s.
    destruct (write_cases s)
      as [[_ Hw]|[(l & _ & _ & Hw)|(l & f & Hfile & Hf & _)]].
    + rewrite Hw. unfold since. simpl. by rewrite drop_app_length.
    + rewrite Hw. unfold since, dangling_events. simpl.
      rewrite drop_app_length.
      by destruct (ts_getAll (newres (this s))),
           (ts_getAll (pseudo (this s))).
    + destruct (persist_failure (this s) f) as [e|] eqn:Hfail.
      * destruct (write_persist_failure s l f e) as [_ ->]; done.
      * rewrite (spawned_write s l f) by done.
        destruct (ts_isDirty _); repeat constructor.
  - by vm_compute.
Qed.

(** * The claims on the reference collaborators

    Each conditional statement above, taken at a concrete state of the
    reference world. *)

Section Examples.

#[local] Existing Instance Ref.collab.

Lemma loaded_state_file :
  file (this Ref.loaded_state) = Some 0
  /\ heap Ref.loaded_state !! 0 = Some Ref.en_US_file.
Proof. split; reflexivity. Qed.

(** C1 on the loaded state: the two new resources, then the pseudo one. *)
Lemma write_adds_new_then_pseudo_witness :
  file (this Ref.loaded_state) = Some 0
  /\ heap Ref.loaded_state !! 0 = Some Ref.en_US_file
  /\ added (since Ref.loaded_state (write Ref.loaded_state).2)
     = [(0, "greeting"); (0, "farewell"); (0, "greeting.pseudo")].
Proof.
  split; [reflexivity|]. split; [reflexivity|].
  exact (proj1 (write_adds_new_then_pseudo Ref.loaded_state 0 Ref.en_US_file
                  eq_refl eq_refl)).
Defined.

(** C2 on the loaded state: the merge made the set dirty, the persist kept
    the flag, the importer ran once. *)
Lemma write_imports_iff_dirty_witness :
  file (this Ref.loaded_state) = Some 0
  /\ heap Ref.loaded_state !! 0 = Some Ref.en_US_file
  /\ spawned (since Ref.loaded_state (write Ref.loaded_state).2)
     = [("xcodebuild", xcodebuild_args)].
Proof.
  split; [reflexivity|]. split; [reflexivity|].
  exact (write_imports_iff_dirty Ref.loaded_state 0 Ref.en_US_file
           eq_refl eq_refl eq_refl).
Defined.

(** With nothing to merge the set stays clean and the importer stays out. *)
Example write_clean_no_import :
  let s := (newFile "en-US.xliff" Ref.fresh_state).2 in
  (write s).1 = Normal tt
  /\ persisted (since s (write s).2) = [0]
  /\ spawned (since s (write s).2) = [].
Proof. by vm_compute. Qed.

(** C3 on the fresh state, also after calls other than [newFile]. *)
Lemma write_without_file_is_noop_witness :
  file (this Ref.fresh_state) = None
  /\ write Ref.fresh_state
     = (Normal tt, record (Log TRACE "Writing xliff files") Ref.fresh_state)
  /\ file (this (run [DoHandles "en-US.xliff"; DoWrite; DoGetNew]
                     (initial Ref.proj ∅ [])))
     = None.
Proof.
  split; [reflexivity|]. split.
  - exact (proj1 (proj1 write_without_file_is_noop Ref.fresh_state eq_refl)).
  - apply (proj2 write_without_file_is_noop Ref.proj ∅ []).
    repeat constructor.
Defined.

(** C4 on the loaded state: a record merged into the extracted set only. *)
Lemma write_leaves_extracted_out_witness :
  ("old.key" ∉ ts_getAll (newres (this Ref.loaded_state)))
  /\ ("old.key" ∉ ts_getAll (pseudo (this Ref.loaded_state)))
  /\ ("old.key"
      ∈ ts_getAll (extracted (this (addSet Ref.old_set Ref.loaded_state).2)))
  /\ ((0, "old.key")
      ∉ added (since (addSet Ref.old_set Ref.loaded_state).2
                 (write (addSet Ref.old_set Ref.loaded_state).2).2)).
Proof.
  assert (Hnew : "old.key" ∉ ts_getAll (newres (this Ref.loaded_state))).
  { apply (bool_decide_unpack _). by vm_compute. }
  assert (Hpseudo : "old.key" ∉ ts_getAll (pseudo (this Ref.loaded_state))).
  { apply (bool_decide_unpack _). by vm_compute. }
  split; [exact Hnew|]. split; [exact Hpseudo|]. split.
  - apply (bool_decide_unpack _). by vm_compute.
  - exact (proj2 (proj2 write_leaves_extracted_out) Ref.loaded_state
             Ref.old_set "old.key" 0 Hnew Hpseudo).
Defined.

(** C5 on the fresh state: the second path is ignored. *)
Lemma newFile_returns_the_singleton_witness :
  file (this Ref.fresh_state) = None
  /\ exists l,
       (newFile "en-US.xliff" Ref.fresh_state).1 = Normal (Some l)
       /\ heap (newFile "en-US.xliff" Ref.fresh_state).2 !! l
          = Some Ref.en_US_file
       /\ newFile "fr-FR.xliff" (newFile "en-US.xliff" Ref.fresh_state).2
          = (Normal (Some l), (newFile "en-US.xliff" Ref.fresh_state).2).
Proof.
  split; [reflexivity|].
  destruct (proj1 newFile_returns_the_singleton Ref.fresh_state
              "en-US.xliff" "fr-FR.xliff" eq_refl)
    as (l & Hret & _ & Hobj & _ & _ & Hagain).
  exists l. split; [exact Hret|]. split; [exact Hobj|]. exact Hagain.
Defined.

(** C7 on the loaded state: the importer of the reference world exits with
    65. *)
Lemma write_survives_importer_failure_witness :
  status (write_import_outcome Ref.loaded_state 0 Ref.en_US_file) = Some 65%Z
  /\ (write Ref.loaded_state).1 = Normal tt
  /\ logged WARN (since Ref.loaded_state (write Ref.loaded_state).2)
     = ["Execution failed: "]
  /\ persisted (since Ref.loaded_state (write Ref.loaded_state).2) = [0].
Proof.
  split; [reflexivity|].
  destruct (write_survives_importer_failure Ref.loaded_state 0 Ref.en_US_file
              eq_refl eq_refl eq_refl eq_refl)
    as (Hret & Hwarn & Hpersist & _).
  - discriminate.
  - split; [exact Hret|]. split; [exact Hwarn|]. exact Hpersist.
Defined.

(** C8 on the loaded state: [Ref.addSet] appends, so nothing is lost. *)
Lemma sets_only_grow_witness :
  (forall a b : Ref.tset, ts_getAll a ⊆ ts_getAll (ts_addSet a b))
  /\ ts_getAll (extracted (this Ref.loaded_state))
     ⊆ ts_getAll
         (extracted
            (this (run [DoAddSet Ref.old_set; DoWrite; DoGetExtracted]
                       Ref.loaded_state))).
Proof.
  assert (Hgrow : forall a b : Ref.tset,
             ts_getAll a ⊆ ts_getAll (ts_addSet a b)).
  { intros a b res Hin. apply elem_of_app. by left. }
  split; [exact Hgrow|].
  exact (proj2 (proj2 (proj2 (proj2 sets_only_grow) Hgrow
           [DoAddSet Ref.old_set; DoWrite; DoGetExtracted] Ref.loaded_state))).
Defined.

(** C9 on the fresh state, after calls other than [newFile]. *)
Lemma getResourceFile_reads_the_singleton_witness :
  Forall (fun c => is_newFile c = false)
    [DoHandles "en-US.xliff"; DoAddSet Ref.old_set; DoWrite]
  /\ (getResourceFile
        (run [DoHandles "en-US.xliff"; DoAddSet Ref.old_set; DoWrite]
             (initial Ref.proj ∅ []))).1
     = Normal None.
Proof.
  assert (Hcs : Forall (fun c => is_newFile c = false)
                  [DoHandles "en-US.xliff"; DoAddSet Ref.old_set; DoWrite]).
  { repeat constructor. }
  split; [exact Hcs|].
  exact (proj1 (proj2 getResourceFile_reads_the_singleton) Ref.proj ∅ [] _ Hcs).
Defined.

End Examples.

(** * Further properties of the file type *)

Section MoreProperties.

Context `{C : Collaborators}.

Implicit Types (s : State) (l : loc) (f : XliffFile).

(** *** Traces by the kind of their events *)

Lemma omap_none {A B} (g : A -> option B) (xs : list A) :
  Forall (fun x => g x = None) xs -> omap g xs = [].
Proof.
  induction 1 as [|x xs Hx _ IH]; [done|]. simpl. by rewrite Hx.
Qed.

Lemma add_events_Forall (P : event Resource -> Prop) l f rs :
  (forall res, P (AddResource l res)) ->
  (forall msg, P (Log TRACE msg)) ->
  Forall P (add_events l f rs).
Proof.
  intros Hadd Hlog. revert f.
  induction rs as [|res rs IH]; intros f; simpl; [constructor|].
  constructor; [apply Hadd|]. constructor; [apply Hlog|]. apply IH.
Qed.

Lemma buffer_events_Forall (P : event Resource -> Prop) buf :
  (forall msg, P (Log INFO msg)) -> Forall P (buffer_events buf).
Proof. intros Hlog. destruct buf; simpl; repeat constructor. apply Hlog. Qed.

Lemma import_events_Forall (P : event Resource -> Prop) pre id :
  (forall lvl msg, lvl <> DEBUG -> P (Log lvl msg)) ->
  P (SpawnSync "xcodebuild" xcodebuild_args) ->
  Forall P (import_events pre id).
Proof.
  intros Hlog Hspawn. unfold import_events, announce.
  repeat first [apply Forall_app; split | apply Forall_cons; split
               | apply Forall_nil_2 | apply buffer_events_Forall
               | case_decide | done | by apply Hlog | by intros; apply Hlog].
Qed.

Lemma merge_events_Forall (P : event Resource -> Prop) t l f :
  (forall lvl msg, lvl <> DEBUG -> P (Log lvl msg)) ->
  (forall res, P (AddResource l res)) ->
  P (FileWrite l) ->
  Forall P (merge_events t l f).
Proof.
  intros Hlog Hadd Hwrite. unfold merge_events.
  repeat first [apply Forall_app; split | apply Forall_cons; split
               | apply Forall_nil_2 | apply add_events_Forall | done
               | by apply Hlog | by intros; apply Hlog].
Qed.

Lemma write_events_Forall (P : event Resource -> Prop) s l f :
  (forall lvl msg, lvl <> DEBUG -> P (Log lvl msg)) ->
  (forall res, P (AddResource l res)) ->
  P (FileWrite l) ->
  P (SpawnSync "xcodebuild" xcodebuild_args) ->
  Forall P (write_events s l f).
Proof.
  intros Hlog Hadd Hwrite Hspawn. unfold write_events.
  apply Forall_app. split; [by apply merge_events_Forall|].
  destruct (persist_failure _ _); [constructor|].
  destruct (ts_isDirty _); [|constructor]. by apply import_events_Forall.
Qed.

Lemma dangling_events_Forall (P : event Resource -> Prop) t :
  (forall lvl msg, lvl <> DEBUG -> P (Log lvl msg)) ->
  Forall P (dangling_events t).
Proof.
  intros Hlog. unfold dangling_events.
  destruct (ts_getAll (newres t)), (ts_getAll (pseudo t));
    repeat constructor; by apply Hlog.
Qed.

(** Whatever a [write] adds to the trace is a log line above the debug
    level, an [addResource] or a persist on the file, or the [xcodebuild]
    call. *)
Lemma write_since_Forall (P : event Resource -> Prop) s :
  (forall lvl msg, lvl <> DEBUG -> P (Log lvl msg)) ->
  (forall l res, file (this s) = Some l -> P (AddResource l res)) ->
  (forall l, file (this s) = Some l -> P (FileWrite l)) ->
  P (SpawnSync "xcodebuild" xcodebuild_args) ->
  Forall P (since s (write s).2).
Proof.
  intros Hlog Hadd Hwrite Hspawn.
  destruct (write_cases s)
    as [[_ Hw]|[(l & _ & _ & Hw)|(l & f & Hfile & Hf & _)]].
  - rewrite Hw. unfold since. simpl. rewrite drop_app_length.
    repeat constructor. by apply Hlog.
  - rewrite Hw. unfold since. simpl. rewrite drop_app_length.
    by apply dangling_events_Forall.
  - rewrite (since_write s l f) by done.
    apply write_events_Forall; auto.
Qed.

Lemma logged_add_events lvl l f rs :
  lvl <> TRACE -> logged lvl (add_events l f rs) = [].
Proof.
  intros Hlvl. apply omap_none. apply add_events_Forall; [done|].
  intros msg. by rewrite decide_False.
Qed.

Lemma logged_INFO_merge_events t l f :
  logged INFO (merge_events t l f) = ["Now writing out the ios xliff files"].
Proof.
  unfold merge_events, logged. rewrite !omap_app. simpl.
  fold (logged INFO
          (add_events l f (ts_getAll (newres t) ++ ts_getAll (pseudo t)))).
  by rewrite logged_add_events.
Qed.

Lemma logged_INFO_import_events pre id :
  logged INFO (import_events pre id)
  = ["executing xcodebuild on the " +:+ id +:+
     " project to import those translations. This may take a while..."]
    ++ buffer_text (stdout (import_outcome pre id))
    ++ buffer_text (stderr (import_outcome pre id))
    ++ ["xcodebuild done"].
Proof.
  unfold import_events, logged, announce. rewrite !omap_app. simpl.
  destruct (stdout _), (stderr _); simpl; by case_decide.
Qed.

Lemma persisted_write_events s l f : persisted (write_events s l f) = [l].
Proof.
  unfold write_events, persisted. rewrite omap_app.
  fold (persisted (merge_events (this s) l f)).
  rewrite persisted_merge_events.
  destruct (persist_failure _ _); [done|].
  destruct (ts_isDirty _); [|done].
  fold (persisted (import_events (trace s ++ merge_events (this s) l f)
                     (options_id (project (this s))))).
  by rewrite persisted_import_events.
Qed.

(** ** [write]: failure, output, repetition, nothing to merge *)

(** X1. When [file.write()] throws, [write] ends with that exception.  By
    then every record of the new and pseudo sets was added and the persist
    was called once; the importer is not run, nothing is warned about, the
    file object is as the failed persist left it and the file type is as
    before. *)
Theorem write_propagates_persist_failure s l f e :
  file (this s) = Some l ->
  heap s !! l = Some f ->
  (xf_write
     (foldl xf_addResource f
        (ts_getAll (newres (this s)) ++ ts_getAll (pseudo (this s))))).2
  = Some e ->
  (write s).1 = Throw (FromFile e)
  /\ added (since s (write s).2)
     = (fun res => (l, res))
       <$> (ts_getAll (newres (this s)) ++ ts_getAll (pseudo (this s)))
  /\ persisted (since s (write s).2) = [l]
  /\ spawned (since s (write s).2) = []
  /\ logged WARN (since s (write s).2) = []
  /\ heap (write s).2
     = <[l := (xf_write
                 (foldl xf_addResource f
                    (ts_getAll (newres (this s))
                     ++ ts_getAll (pseudo (this s))))).1]> (heap s)
  /\ this (write s).2 = this s.
Proof.
  intros Hfile Hf Hfail.
  assert (Hfail' : persist_failure (this s) f = Some e) by exact Hfail.
  rewrite (since_write s l f) by done.
  rewrite (write_run s l f) by done. cbn [fst snd heap this].
  unfold write_events. rewrite Hfail', app_nil_r.
  split_and!; try done.
  - apply added_merge_events.
  - apply persisted_merge_events.
  - apply spawned_merge_events.
  - apply logged_WARN_merge_events.
Qed.

(** X2. When the importer runs, [write] completes normally and passes on
    what the process printed: the info lines of that [write] are the persist
    notice, the announcement, the standard output if there is one, the
    standard error if there is one, and the closing line.  The warning is
    there exactly when the status is not the number 0, so also when the
    process has no exit status. *)
Theorem importer_output_is_logged s l f :
  file (this s) = Some l ->
  heap s !! l = Some f ->
  persist_failure (this s) f = None ->
  ts_isDirty (xf_getTranslationSet (after_persist (this s) f)) = true ->
  (write s).1 = Normal tt
  /\ logged INFO (since s (write s).2)
     = ["Now writing out the ios xliff files";
        "executing xcodebuild on the " +:+ options_id (project (this s)) +:+
        " project to import those translations. This may take a while..."]
       ++ buffer_text (stdout (write_import_outcome s l f))
       ++ buffer_text (stderr (write_import_outcome s l f))
       ++ ["xcodebuild done"]
  /\ (logged WARN (since s (write s).2) = []
      <-> status (write_import_outcome s l f) = Some 0%Z)
  /\ (status (write_import_outcome s l f) <> Some 0%Z ->
      logged WARN (since s (write s).2) = ["Execution failed: "]).
Proof.
  intros Hfile Hf Hok Hdirty. rewrite (since_write s l f) by done.
  rewrite (write_run s l f) by done. cbn [fst].
  unfold write_events. rewrite Hok, Hdirty.
  assert (Hwarn : logged WARN
                    (merge_events (this s) l f
                     ++ import_events (trace s ++ merge_events (this s) l f)
                          (options_id (project (this s))))
                  = if decide (status (write_import_outcome s l f) = Some 0%Z)
                    then [] else ["Execution failed: "]).
  { unfold logged. rewrite omap_app.
    fold (logged WARN (merge_events (this s) l f)).
    fold (logged WARN (import_events (trace s ++ merge_events (this s) l f)
                         (options_id (project (this s))))).
    by rewrite logged_WARN_merge_events, logged_WARN_import_events. }
  split_and!; try done.
  - unfold logged. rewrite omap_app.
    fold (logged INFO (merge_events (this s) l f)).
    fold (logged INFO (import_events (trace s ++ merge_events (this s) l f)
                         (options_id (project (this s))))).
    by rewrite logged_INFO_merge_events, logged_INFO_import_events.
  - rewrite Hwarn. by case_decide.
  - intros Hstatus. rewrite Hwarn. by case_decide.
Qed.

(** X3. A second [write] adds every record of the new and pseudo sets to the
    file once more and persists once more: nothing remembers what an earlier
    [write] already merged. *)
Theorem write_twice_adds_twice s l f :
  file (this s) = Some l ->
  heap s !! l = Some f ->
  added (since s (write (write s).2).2)
  = ((fun res => (l, res))
     <$> (ts_getAll (newres (this s)) ++ ts_getAll (pseudo (this s))))
    ++ ((fun res => (l, res))
        <$> (ts_getAll (newres (this s)) ++ ts_getAll (pseudo (this s))))
  /\ persisted (since s (write (write s).2).2) = [l; l]
  /\ heap (write (write s).2).2 !! l
     = Some (xf_write
               (foldl xf_addResource
                  (xf_write
                     (foldl xf_addResource f
                        (ts_getAll (newres (this s))
                         ++ ts_getAll (pseudo (this s))))).1
                  (ts_getAll (newres (this s))
                   ++ ts_getAll (pseudo (this s))))).1.
Proof.
  intros Hfile Hf.
  assert (Hfile1 : file (this (write s).2) = Some l)
    by (by rewrite write_this).
  assert (Hf1 : heap (write s).2 !! l = Some (after_persist (this s) f)).
  { rewrite (write_run s l f) by done. simpl. apply lookup_insert_eq. }
  pose proof (write_run (write s).2 l _ Hfile1 Hf1) as Hw2.
  assert (Htr : trace (write (write s).2).2
                = trace s ++ write_events s l f
                  ++ write_events (write s).2 l (after_persist (this s) f)).
  { rewrite Hw2. cbn [snd trace]. rewrite (write_run s l f) at 1 by done.
    cbn [snd trace]. by rewrite app_assoc. }
  rewrite (since_app _ _ _ Htr).
  split_and!.
  - unfold added. rewrite omap_app.
    fold (added (write_events s l f)).
    fold (added (write_events (write s).2 l (after_persist (this s) f))).
    rewrite !added_write_events. by rewrite write_this.
  - unfold persisted. rewrite omap_app.
    fold (persisted (write_events s l f)).
    fold (persisted (write_events (write s).2 l (after_persist (this s) f))).
    by rewrite !persisted_write_events.
  - rewrite Hw2. cbn [snd heap]. rewrite lookup_insert_eq.
    by rewrite write_this.
Qed.

(** X4. With nothing in the new and pseudo sets, [write] adds nothing but
    still persists the file as it stands, and still runs the importer when
    the persisted file's set is dirty. *)
Theorem write_with_nothing_to_merge s l f :
  file (this s) = Some l ->
  heap s !! l = Some f ->
  ts_getAll (newres (this s)) = [] ->
  ts_getAll (pseudo (this s)) = [] ->
  added (since s (write s).2) = []
  /\ persisted (since s (write s).2) = [l]
  /\ heap (write s).2 !! l = Some (xf_write f).1
  /\ (write s).1
     = match (xf_write f).2 with
       | Some e => Throw (FromFile e)
       | None => Normal tt
       end
  /\ spawned (since s (write s).2)
     = match (xf_write f).2 with
       | Some _ => []
       | None =>
           if ts_isDirty (xf_getTranslationSet (xf_write f).1)
           then [("xcodebuild", xcodebuild_args)]
           else []
       end.
Proof.
  intros Hfile Hf Hnew Hpseudo.
  assert (Hbefore : before_persist (this s) f = f).
  { unfold before_persist. by rewrite Hnew, Hpseudo. }
  rewrite (since_write s l f) by done.
  rewrite (write_run s l f) by done. cbn [fst snd heap].
  rewrite added_write_events, persisted_write_events, Hnew, Hpseudo.
  unfold persist_failure, after_persist. rewrite Hbefore.
  split_and!; try done.
  - apply lookup_insert_eq.
  - unfold write_events, spawned. rewrite omap_app.
    fold (spawned (merge_events (this s) l f)).
    rewrite spawned_merge_events.
    unfold persist_failure, after_persist. rewrite Hbefore. simpl.
    destruct (xf_write f).2; [done|].
    destruct (ts_isDirty _); [|done]. apply spawned_import_events.
Qed.

(** ** The file reference over a run *)

Lemma write_heap_dom s l' :
  is_Some (heap s !! l') -> is_Some (heap (write s).2 !! l').
Proof.
  intros Hl'.
  destruct (write_cases s)
    as [[_ Hw]|[(l & _ & _ & Hw)|(l & f & Hfile & Hf & Hw)]];
    rewrite Hw; simpl; try done.
  destruct (decide (l = l')) as [->|Hne].
  - rewrite lookup_insert_eq. eauto.
  - by rewrite lookup_insert_ne.
Qed.

Lemma exec_file_alive c s : file_alive s -> file_alive (exec c s).
Proof.
  unfold file_alive. intros Halive. destruct c; simpl; try done.
  - rewrite write_this. destruct (file (this s)) as [l|]; [|done].
    by apply write_heap_dom.
  - destruct (file (this s)) as [l|] eqn:Hfile.
    + rewrite (newFile_existing _ _ l) by done. simpl. by rewrite Hfile.
    + rewrite newFile_fresh by done. simpl. rewrite lookup_insert_eq. eauto.
Qed.

Lemma run_file_alive cs s : file_alive s -> file_alive (run cs s).
Proof.
  intros Halive. induction cs as [|c cs IH] using rev_ind; [done|].
  rewrite run_snoc. by apply exec_file_alive.
Qed.

Lemma exec_file_kept c s l :
  file (this s) = Some l -> file (this (exec c s)) = Some l.
Proof.
  intros Hfile. destruct c; simpl; try done.
  - by rewrite write_this.
  - by rewrite (newFile_existing _ _ l).
Qed.

Lemma run_cons c cs s : run (c :: cs) s = run cs (exec c s).
Proof. done. Qed.

(** X5. Once [this.file] refers to an object it is alive, and every method
    keeps it so; hence on a file type used from its construction on, [write]
    never fails on its own accesses to the file. *)
Theorem file_reference_stays_alive :
  (forall c s, file_alive s -> file_alive (exec c s))
  /\ (forall proj h tr cs,
        file_alive (run cs (initial proj h tr))
        /\ (write (run cs (initial proj h tr))).1 <> Throw TypeError).
Proof.
  split; [apply exec_file_alive|].
  intros proj h tr cs.
  assert (Halive : file_alive (run cs (initial proj h tr)))
    by (by apply run_file_alive).
  split; [done|].
  destruct (write_cases (run cs (initial proj h tr)))
    as [[_ Hw]|[(l & Hfile & Hl & _)|(l & f & _ & _ & Hw)]].
  - by rewrite Hw.
  - unfold file_alive in Halive. rewrite Hfile, Hl in Halive.
    by destruct Halive.
  - rewrite Hw. simpl. by destruct (persist_failure _ _).
Qed.

(** X6. No method replaces or clears the file once there is one: after any
    further calls [this.file] is the same reference. *)
Theorem file_is_never_replaced cs s l :
  file (this s) = Some l -> file (this (run cs s)) = Some l.
Proof.
  intros Hfile. induction cs as [|c cs IH] using rev_ind; [done|].
  rewrite run_snoc. by apply exec_file_kept.
Qed.

Lemma exec_other_object c s l' :
  is_Some (heap s !! l') ->
  file (this s) <> Some l' ->
  heap (exec c s) !! l' = heap s !! l' /\ file (this (exec c s)) <> Some l'.
Proof.
  intros Hl' Hother. destruct c; simpl; try done.
  - rewrite write_this. split; [|done].
    destruct (write_cases s)
      as [[_ Hw]|[(l & _ & _ & Hw)|(l & f & Hfile & Hf & Hw)]];
      rewrite Hw; simpl; try done.
    apply lookup_insert_ne. intros ->. by rewrite Hfile in Hother.
  - destruct (file (this s)) as [l|] eqn:Hfile.
    + rewrite (newFile_existing _ _ l) by done. simpl. by rewrite Hfile.
    + rewrite newFile_fresh by done. simpl.
      assert (Hne : fresh (dom (heap s)) <> l').
      { intros <-. rewrite fresh_not_in_heap in Hl'. by destruct Hl'. }
      split; [by apply lookup_insert_ne | by intros [= ?]].
Qed.

(** X7. The file type touches no [XliffFile] object but its own: an object
    that is alive and is not [this.file] is the same after any run of
    calls. *)
Theorem other_objects_untouched cs s l' :
  is_Some (heap s !! l') ->
  file (this s) <> Some l' ->
  heap (run cs s) !! l' = heap s !! l'.
Proof.
  intros Hl' Hother.
  cut (heap (run cs s) !! l' = heap s !! l'
       /\ file (this (run cs s)) <> Some l'); [by intros [? _]|].
  induction cs as [|c cs [IHheap IHfile]] using rev_ind; [done|].
  rewrite run_snoc.
  destruct (exec_other_object c (run cs s) l') as [Hheap Hfile];
    [by rewrite IHheap | done |].
  split; [by rewrite Hheap | done].
Qed.

(** *** What each call adds to the trace *)

Lemma write_trace s : trace (write s).2 = trace s ++ since s (write s).2.
Proof.
  destruct (write_cases s)
    as [[_ Hw]|[(l & _ & _ & Hw)|(l & f & _ & _ & Hw)]];
    rewrite Hw; unfold since; simpl; by rewrite drop_app_length.
Qed.

Lemma since_exec c s :
  trace (exec c s) = trace s ++ since s (exec c s)
  /\ since s (exec c s)
     = match c with
       | DoHandles pathName =>
           [Log DEBUG ("XliffFileType handles " +:+ pathName +:+ "?");
            Log DEBUG (if String.eqb (path_normalize pathName) "en-US.xliff"
                       then "Yes" else "No")]
       | DoWrite => since s (write s).2
       | DoNewFile pathName =>
           match file (this s) with
           | Some _ => []
           | None => [NewXliffFile (fresh (dom (heap s)))
                        (newFile_options (project (this s)) pathName)]
           end
       | _ => []
       end.
Proof.
  destruct c; cbn [exec];
    try (unfold since; simpl; rewrite drop_all, app_nil_r; done).
  - rewrite handles_run. unfold since. simpl. by rewrite drop_app_length.
  - split; [apply write_trace | done].
  - destruct (file (this s)) as [l|] eqn:Hfile.
    + rewrite (newFile_existing _ _ l) by done. unfold since. simpl.
      by rewrite drop_all, app_nil_r.
    + rewrite newFile_fresh by done. unfold since. simpl.
      by rewrite drop_app_length.
Qed.

Lemma constructed_write s : constructed (since s (write s).2) = [].
Proof. apply omap_none. by apply write_since_Forall. Qed.

Lemma exec_descriptive c s :
  type (this (exec c s)) = type (this s)
  /\ project (this (exec c s)) = project (this s)
  /\ files (this (exec c s)) = files (this s)
  /\ extensions (this (exec c s)) = extensions (this s)
  /\ datatype (this (exec c s)) = datatype (this s).
Proof.
  destruct c; simpl; try done.
  - by rewrite write_this.
  - destruct (file (this s)) as [l|] eqn:Hfile.
    + by rewrite (newFile_existing _ _ l).
    + by rewrite newFile_fresh.
Qed.

Lemma exec_heap_without_file c s :
  file (this s) = None -> is_newFile c = false -> heap (exec c s) = heap s.
Proof.
  intros Hnone Hc. destruct c; simpl; try done.
  by rewrite write_no_file.
Qed.

Lemma run_constructed cs : forall s,
  exists evs,
    trace (run cs s) = trace s ++ evs
    /\ constructed evs
       = match file (this s), first_newFile cs with
         | None, Some pathName =>
             [(fresh (dom (heap s)),
               newFile_options (project (this s)) pathName)]
         | _, _ => []
         end
    /\ file (this (run cs s))
       = match file (this s), first_newFile cs with
         | Some l, _ => Some l
         | None, Some _ => Some (fresh (dom (heap s)))
         | None, None => None
         end.
Proof.
  induction cs as [|c cs IH]; intros s.
  { exists []. rewrite app_nil_r. simpl. by destruct (file (this s)). }
  rewrite run_cons. destruct (IH (exec c s)) as (evs & Htr & Hcon & Hfile).
  destruct (since_exec c s) as [Htr1 Hsince].
  exists (since s (exec c s) ++ evs).
  rewrite Htr, Htr1, app_assoc. split; [done|].
  unfold constructed in *. rewrite omap_app, Hcon, Hfile.
  destruct (exec_descriptive c s) as (_ & Hproj & _).
  destruct (file (this s)) as [l|] eqn:Hs.
  - rewrite (exec_file_kept c s l Hs).
    assert (Hnil : omap (fun e : event Resource =>
                           match e with
                           | NewXliffFile l' o => Some (l', o)
                           | _ => None
                           end) (since s (exec c s)) = []).
    { rewrite Hsince.
      destruct c; first [done | apply constructed_write | by rewrite Hs]. }
    rewrite Hnil. split; [by destruct (first_newFile _) | done].
  - destruct (is_newFile c) eqn:Hc.
    + destruct c; try done. rewrite Hsince. cbn [exec].
      rewrite newFile_fresh by done. simpl. done.
    + rewrite (exec_file c s Hc), Hs, Hproj.
      rewrite (exec_heap_without_file c s Hs Hc).
      assert (Hnil : omap (fun e : event Resource =>
                             match e with
                             | NewXliffFile l' o => Some (l', o)
                             | _ => None
                             end) (since s (exec c s)) = []).
      { rewrite Hsince. destruct c; first [done | apply constructed_write]. }
      rewrite Hnil. simpl. by destruct c.
Qed.

(** X8. Over any run of calls on a file type without a file, at most one
    [XliffFile] is constructed: the first [newFile] call of the run makes
    it, from the project and the path of that call, and [this.file] is that
    object from then on; with no [newFile] call there is none.  On a file
    type that has a file no call constructs another. *)
Theorem one_file_per_run cs s :
  (file (this s) = None ->
   constructed (since s (run cs s))
   = match first_newFile cs with
     | Some pathName =>
         [(fresh (dom (heap s)), newFile_options (project (this s)) pathName)]
     | None => []
     end
   /\ file (this (run cs s))
      = match first_newFile cs with
        | Some _ => Some (fresh (dom (heap s)))
        | None => None
        end)
  /\ (forall l,
        file (this s) = Some l -> constructed (since s (run cs s)) = []).
Proof.
  destruct (run_constructed cs s) as (evs & Htr & Hcon & Hfile).
  rewrite (since_app _ _ _ Htr). split.
  - intros Hnone. rewrite Hnone in Hcon, Hfile. done.
  - intros l Hl. by rewrite Hl in Hcon.
Qed.

(** ** What each method can do *)

Lemma write_global_ret s : global_ret (write s).2 = global_ret s.
Proof.
  destruct (write_cases s)
    as [[_ Hw]|[(l & _ & _ & Hw)|(l & f & _ & _ & Hw)]]; by rewrite Hw.
Qed.

Lemma exec_global_ret c s :
  global_ret (exec c s)
  = match c with
    | DoHandles pathName =>
        Some (String.eqb (path_normalize pathName) "en-US.xliff")
    | _ => global_ret s
    end.
Proof.
  destruct c; cbn [exec];
    first [done | by rewrite handles_run | apply write_global_ret | idtac].
  destruct (file (this s)) as [l|] eqn:Hfile.
  - by rewrite (newFile_existing _ _ l).
  - by rewrite newFile_fresh.
Qed.

(** X9. Only [write] calls [addResource], [file.write()] or the importer,
    and only [write] logs above the debug level; only [newFile] constructs a
    file; only [handles] logs at the debug level or assigns the global
    [ret]; and the [XliffFile] objects change under no method but [write]
    and [newFile]. *)
Theorem each_effect_has_one_source c s :
  (c <> DoWrite ->
   added (since s (exec c s)) = []
   /\ persisted (since s (exec c s)) = []
   /\ spawned (since s (exec c s)) = []
   /\ logged TRACE (since s (exec c s)) = []
   /\ logged INFO (since s (exec c s)) = []
   /\ logged WARN (since s (exec c s)) = [])
  /\ (is_newFile c = false -> constructed (since s (exec c s)) = [])
  /\ ((forall pathName, c <> DoHandles pathName) ->
      logged DEBUG (since s (exec c s)) = []
      /\ global_ret (exec c s) = global_ret s)
  /\ (c <> DoWrite -> is_newFile c = false -> heap (exec c s) = heap s).
Proof.
  destruct (since_exec c s) as [_ Hsince]. split_and!.
  - intros Hc. rewrite Hsince. destruct c; try done.
    by destruct (file (this s)).
  - intros Hc. rewrite Hsince. destruct c; try done.
    apply constructed_write.
  - intros Hc. rewrite exec_global_ret. rewrite Hsince.
    destruct c; try done.
    + by destruct (Hc pathName).
    + split; [|done]. apply omap_none. apply write_since_Forall; try done.
      intros lvl msg Hlvl. by rewrite decide_False.
    + by destruct (file (this s)).
  - intros Hc Hnew. by destruct c.
Qed.

(** ** What stays as constructed *)

Lemma run_descriptive cs s :
  type (this (run cs s)) = type (this s)
  /\ project (this (run cs s)) = project (this s)
  /\ files (this (run cs s)) = files (this s)
  /\ extensions (this (run cs s)) = extensions (this s)
  /\ datatype (this (run cs s)) = datatype (this s).
Proof.
  induction cs as [|c cs IH] using rev_ind; [done|].
  rewrite run_snoc.
  destruct (exec_descriptive c (run cs s)) as (-> & -> & -> & -> & ->).
  exact IH.
Qed.

(** X10. No method changes the type, the project, the file list, the
    extension list or the data type of the file type.  So after any run of
    calls on a constructed file type [getExtensions] still answers with the
    one extension [.xliff], and the project is the one it was constructed
    for. *)
Theorem descriptive_fields_are_fixed :
  (forall cs s,
     type (this (run cs s)) = type (this s)
     /\ project (this (run cs s)) = project (this s)
     /\ files (this (run cs s)) = files (this s)
     /\ extensions (this (run cs s)) = extensions (this s)
     /\ datatype (this (run cs s)) = datatype (this s))
  /\ (forall proj h tr cs,
        (getExtensions (run cs (initial proj h tr))).1 = Normal [".xliff"]
        /\ type (this (run cs (initial proj h tr))) = "xml"
        /\ project (this (run cs (initial proj h tr))) = proj).
Proof.
  split; [apply run_descriptive|].
  intros proj h tr cs.
  destruct (run_descriptive cs (initial proj h tr))
    as (Htype & Hproj & _ & Hext & _).
  unfold getExtensions, gets. simpl. by rewrite Hext, Htype, Hproj.
Qed.

(** X11. [handles] leaves its answer in the global [ret], and nothing else
    writes there: after any run of calls the global holds the answer of the
    last [handles] call of the run, or what it held before if there was
    none. *)
Theorem handles_leaves_answer_in_global cs s :
  global_ret (run cs s)
  = match last (handles_answers cs) with
    | Some answer => Some answer
    | None => global_ret s
    end.
Proof.
  induction cs as [|c cs IH] using rev_ind; [done|].
  rewrite run_snoc, exec_global_ret. unfold handles_answers in *.
  rewrite omap_app. destruct c; simpl; rewrite ?app_nil_r; try exact IH.
  by rewrite last_snoc.
Qed.

End MoreProperties.

(** * The further properties on the reference collaborators *)

Section ReadOnlyExample.

#[local] Existing Instance Ref.read_only.

(** X1 on a file that cannot be written. *)
Lemma write_propagates_persist_failure_witness :
  file (this Ref.read_only_state) = Some 0
  /\ heap Ref.read_only_state !! 0 = Some Ref.en_US_file
  /\ (write Ref.read_only_state).1
     = Throw (FromFile "EACCES: permission denied")
  /\ added (since Ref.read_only_state (write Ref.read_only_state).2)
     = [(0, "greeting"); (0, "farewell"); (0, "greeting.pseudo")]
  /\ spawned (since Ref.read_only_state (write Ref.read_only_state).2) = [].
Proof.
  split; [reflexivity|]. split; [reflexivity|].
  destruct (write_propagates_persist_failure Ref.read_only_state 0
              Ref.en_US_file "EACCES: permission denied"
              eq_refl eq_refl eq_refl)
    as (Hthrow & Hadded & _ & Hspawn & _).
  split; [exact Hthrow|]. split; [exact Hadded | exact Hspawn].
Defined.

End ReadOnlyExample.

Section MoreExamples.

#[local] Existing Instance Ref.collab.

(** X2 on the loaded state: both buffers are passed on, around the
    warning. *)
Lemma importer_output_is_logged_witness :
  file (this Ref.loaded_state) = Some 0
  /\ heap Ref.loaded_state !! 0 = Some Ref.en_US_file
  /\ logged INFO (since Ref.loaded_state (write Ref.loaded_state).2)
     = ["Now writing out the ios xliff files";
        "executing xcodebuild on the feelgood project to import those translations. This may take a while...";
        "Build settings from command line";
        "xcodebuild: error: feelgood.xcodeproj does not exist.";
        "xcodebuild done"].
Proof.
  split; [reflexivity|]. split; [reflexivity|].
  exact (proj1 (proj2 (importer_output_is_logged Ref.loaded_state 0
                         Ref.en_US_file eq_refl eq_refl eq_refl eq_refl))).
Defined.

(** X3 on the loaded state. *)
Lemma write_twice_adds_twice_witness :
  file (this Ref.loaded_state) = Some 0
  /\ heap Ref.loaded_state !! 0 = Some Ref.en_US_file
  /\ added (since Ref.loaded_state (write (write Ref.loaded_state).2).2)
     = [(0, "greeting"); (0, "farewell"); (0, "greeting.pseudo");
        (0, "greeting"); (0, "farewell"); (0, "greeting.pseudo")].
Proof.
  split; [reflexivity|]. split; [reflexivity|].
  exact (proj1 (write_twice_adds_twice Ref.loaded_state 0 Ref.en_US_file
                  eq_refl eq_refl)).
Defined.

(** X4 right after [newFile], before anything was extracted. *)
Lemma write_with_nothing_to_merge_witness :
  file (this Ref.created_state) = Some 0
  /\ heap Ref.created_state !! 0 = Some Ref.en_US_file
  /\ ts_getAll (newres (this Ref.created_state)) = []
  /\ ts_getAll (pseudo (this Ref.created_state)) = []
  /\ added (since Ref.created_state (write Ref.created_state).2) = []
  /\ persisted (since Ref.created_state (write Ref.created_state).2) = [0].
Proof.
  split; [reflexivity|]. split; [reflexivity|]. split; [reflexivity|].
  split; [reflexivity|].
  destruct (write_with_nothing_to_merge Ref.created_state 0 Ref.en_US_file
              eq_refl eq_refl eq_refl eq_refl)
    as (Hadded & Hpersisted & _).
  split; [exact Hadded | exact Hpersisted].
Defined.

(** X5 on the loaded state and a [write]. *)
Lemma file_reference_stays_alive_witness :
  file_alive Ref.loaded_state /\ file_alive (exec DoWrite Ref.loaded_state).
Proof.
  assert (Halive : file_alive Ref.loaded_state).
  { exists Ref.en_US_file. reflexivity. }
  split; [exact Halive|].
  exact (proj1 file_reference_stays_alive DoWrite Ref.loaded_state Halive).
Defined.

(** X6 on the loaded state: a [newFile] for another path and a [write]. *)
Lemma file_is_never_replaced_witness :
  file (this Ref.loaded_state) = Some 0
  /\ file (this (run [DoNewFile "fr-FR.xliff"; DoWrite] Ref.loaded_state))
     = Some 0.
Proof.
  split; [reflexivity|].
  exact (file_is_never_replaced [DoNewFile "fr-FR.xliff"; DoWrite]
           Ref.loaded_state 0 eq_refl).
Defined.

(** X7 in a world with a second object. *)
Lemma other_objects_untouched_witness :
  is_Some (heap Ref.shared_state !! 7)
  /\ file (this Ref.shared_state) <> Some 7
  /\ heap (run [DoWrite; DoNewFile "fr-FR.xliff"; DoWrite] Ref.shared_state)
       !! 7
     = heap Ref.shared_state !! 7.
Proof.
  assert (Hthere : is_Some (heap Ref.shared_state !! 7)).
  { exists Ref.en_US_file. reflexivity. }
  assert (Hother : file (this Ref.shared_state) <> Some 7).
  { vm_compute. discriminate. }
  split; [exact Hthere|]. split; [exact Hother|].
  exact (other_objects_untouched [DoWrite; DoNewFile "fr-FR.xliff"; DoWrite]
           Ref.shared_state 7 Hthere Hother).
Defined.

(** X8 on the fresh state: two [newFile] calls, one file. *)
Lemma one_file_per_run_witness :
  file (this Ref.fresh_state) = None
  /\ constructed
       (since Ref.fresh_state
          (run [DoHandles "en-US.xliff"; DoNewFile "en-US.xliff";
                DoNewFile "fr-FR.xliff"; DoWrite] Ref.fresh_state))
     = [(0, newFile_options Ref.proj "en-US.xliff")].
Proof.
  split; [reflexivity|].
  exact (proj1 (proj1 (one_file_per_run
                         [DoHandles "en-US.xliff"; DoNewFile "en-US.xliff";
                          DoNewFile "fr-FR.xliff"; DoWrite] Ref.fresh_state)
                  eq_refl)).
Defined.

(** X9 on the loaded state: [newFile] and [handles] stay away from the
    file's contents, [write] constructs nothing and leaves the global. *)
Lemma each_effect_has_one_source_witness :
  DoNewFile "fr-FR.xliff" <> DoWrite
  /\ is_newFile DoWrite = false
  /\ (forall pathName : string, DoWrite <> DoHandles pathName)
  /\ added (since Ref.loaded_state
              (exec (DoNewFile "fr-FR.xliff") Ref.loaded_state)) = []
  /\ constructed (since Ref.loaded_state (exec DoWrite Ref.loaded_state)) = []
  /\ global_ret (exec DoWrite Ref.loaded_state) = global_ret Ref.loaded_state
  /\ heap (exec (DoHandles "en-US.xliff") Ref.loaded_state)
     = heap Ref.loaded_state.
Proof.
  assert (H1 : @DoNewFile Ref.collab "fr-FR.xliff" <> DoWrite)
    by discriminate.
  assert (H2 : forall pathName : string,
             @DoWrite Ref.collab <> DoHandles pathName) by discriminate.
  assert (H3 : @DoHandles Ref.collab "en-US.xliff" <> DoWrite)
    by discriminate.
  split; [exact H1|]. split; [reflexivity|]. split; [exact H2|].
  split.
  { exact (proj1 (proj1 (each_effect_has_one_source
                           (DoNewFile "fr-FR.xliff") Ref.loaded_state) H1)). }
  split.
  { exact (proj1 (proj2 (each_effect_has_one_source DoWrite Ref.loaded_state))
             eq_refl). }
  split.
  { exact (proj2 (proj1 (proj2 (proj2 (each_effect_has_one_source
                                         DoWrite Ref.loaded_state))) H2)). }
  exact (proj2 (proj2 (proj2 (each_effect_has_one_source
                                (DoHandles "en-US.xliff") Ref.loaded_state)))
           H3 eq_refl).
Defined.

End MoreExamples.
